(** * discord/message.py : the Message value object

    A shallow embedding of [discord.message.Message]: hydration from a
    gateway payload ([_update], [_handle_upgrades], [_handle_mentions]),
    the lazily cached raw mention lists and [clean_content]. *)

From Stdlib Require Import List NArith String Ascii Bool Arith Lia Permutation.
Import ListNotations.

Set Implicit Arguments.

(** ** Python [str] values

    A Python 3 [str] is a sequence of Unicode code points; a code point is
    kept as its number. *)

Module Str.

Definition char := N.
Definition str := list char.

(** An ASCII literal of the source, as code points. *)
Definition lit (s : string) : str :=
  map N_of_ascii (list_ascii_of_string s).

Fixpoint eqb (a b : str) : bool :=
  match a, b with
  | [], [] => true
  | c :: a', d :: b' => N.eqb c d && eqb a' b'
  | _, _ => false
  end.

(** [starts_with p s] is [Some rest] when [s = p ++ rest]. *)
Fixpoint starts_with (p s : str) : option str :=
  match p with
  | [] => Some s
  | c :: p' =>
      match s with
      | [] => None
      | d :: s' => if N.eqb c d then starts_with p' s' else None
      end
  end.

(** [occurs p s]: [p] is a substring of [s] (Python's [p in s]). *)
Fixpoint occurs (p s : str) : bool :=
  match starts_with p s with
  | Some _ => true
  | None => match s with [] => false | _ :: s' => occurs p s' end
  end.

(** The character class [[0-9]]. *)
Definition is_digit (c : char) : bool := (48 <=? c)%N && (c <=? 57)%N.

(** Longest run of digits at the head of [s], and what follows it. *)
Fixpoint span_digits (s : str) : str * str :=
  match s with
  | c :: s' =>
      if is_digit c then let (d, r) := span_digits s' in (c :: d, r)
      else ([], s)
  | [] => ([], [])
  end.

End Str.

Import Str.

(** ** The part of Python's [re] that message.py uses

    A matcher tries one pattern at the head of a string and gives what the
    match captured (group 1 for the extraction patterns, the matched
    alternative for the substitution patterns) and the text after the match. *)

Module Re.

Definition matcher := str -> option (str * str).

(** *** The extraction patterns

    The three patterns are sequences of literal characters, one optional
    character and one group of digits.  They are matched as [re] matches
    them: greedily, and going back to the next shorter choice when what
    follows does not match. *)
Inductive item : Type :=
| Chr (c : char)       (* a literal character *)
| Opt (c : char)       (* [c?] *)
| Digits.              (* [([0-9]+)], the group *)

Definition regex := list item.

(** The non-empty runs of digits at the head of [s], each with what
    follows it, the longest first. *)
Fixpoint digit_runs (s : str) : list (str * str) :=
  match s with
  | c :: s' =>
      if is_digit c then
        map (fun dr => (c :: fst dr, snd dr)) (digit_runs s') ++ [([c], s')]
      else []
  | [] => []
  end.

Fixpoint first_success {A B : Type} (f : A -> option B) (xs : list A)
    : option B :=
  match xs with
  | [] => None
  | x :: xs' =>
      match f x with
      | Some b => Some b
      | None => first_success f xs'
      end
  end.

(** [run p s g]: match [p] at the head of [s]; [g] is the group so far.
    The result is the group and the text after the match. *)
Fixpoint run (p : regex) (s : str) (g : str) : option (str * str) :=
  match p with
  | [] => Some (g, s)
  | Chr c :: p' =>
      match s with
      | d :: s' => if N.eqb d c then run p' s' g else None
      | [] => None
      end
  | Opt c :: p' =>
      let taken :=
        match s with
        | d :: s' => if N.eqb d c then run p' s' g else None
        | [] => None
        end in
      match taken with
      | Some r => Some r
      | None => run p' s g
      end
  | Digits :: p' =>
      first_success (fun dr => run p' (snd dr) (fst dr)) (digit_runs s)
  end.

Definition literal (s : str) : regex := map Chr s.

(** [<@!?([0-9]+)>] *)
Definition user_regex : regex :=
  literal (lit "<@") ++ [Opt 33%N; Digits] ++ literal (lit ">").

(** [<#([0-9]+)>] *)
Definition channel_regex : regex :=
  literal (lit "<#") ++ [Digits] ++ literal (lit ">").

(** [<@&([0-9]+)>] *)
Definition role_regex : regex :=
  literal (lit "<@&") ++ [Digits] ++ literal (lit ">").

Definition user_pattern : matcher := fun s => run user_regex s [].
Definition channel_pattern : matcher := fun s => run channel_regex s [].
Definition role_pattern : matcher := fun s => run role_regex s [].

(** The same patterns read from left to right without going back: an
    optional character is taken when it is there, and the group is the
    longest run of digits.  ([user_pattern_scan] and its two companions
    below show that this is what the patterns match.) *)
Definition optional (c : char) (s : str) : str :=
  match s with
  | d :: s' => if N.eqb d c then s' else s
  | [] => s
  end.

Definition digits_group (closing : str) (s : str) : option (str * str) :=
  let (g, r) := span_digits s in
  match g with
  | [] => None
  | _ :: _ =>
      match starts_with closing r with
      | Some rest => Some (g, rest)
      | None => None
      end
  end.

(** ['|'.join(keys)] compiled: the alternatives are tried in order and the
    first one that matches wins.  Joining no key at all gives the empty
    pattern, which has the single alternative that matches the empty
    string. *)
Definition alternation (keys : list str) : list str :=
  match keys with
  | [] => [ [] ]
  | _ => keys
  end.

Fixpoint first_alternative (alts : list str) (s : str) : option (str * str) :=
  match alts with
  | [] => None
  | k :: alts' =>
      match starts_with k s with
      | Some rest => Some (k, rest)
      | None => first_alternative alts' s
      end
  end.

(** [re.findall(p, s)] for a pattern with one group: scan from the left,
    collect group 1 of each match and resume after the match; where nothing
    matches, move one character on.  The fuel is the number of positions
    that can still be visited. *)
Fixpoint findall_from (fuel : nat) (p : matcher) (s : str) : list str :=
  match fuel with
  | O => []
  | S fuel' =>
      match s with
      | [] => []
      | _ :: s' =>
          match p s with
          | Some (g, rest) => g :: findall_from fuel' p rest
          | None => findall_from fuel' p s'
          end
      end
  end.

Definition findall (p : matcher) (s : str) : list str :=
  findall_from (List.length s) p s.

(** [pattern.sub(repl, s)] for an alternation of literals: each match is
    replaced by [repl] of the matched text.  An empty match (only the empty
    pattern has one) is replaced too and the scan moves one character on; it
    also occurs at the end of the string. *)
Fixpoint sub_from (fuel : nat) (alts : list str) (repl : str -> str)
    (s : str) : str :=
  match fuel with
  | O => []
  | S fuel' =>
      match first_alternative alts s with
      | Some ([], _) =>
          match s with
          | [] => repl []
          | c :: s' => repl [] ++ c :: sub_from fuel' alts repl s'
          end
      | Some (k, rest) => repl k ++ sub_from fuel' alts repl rest
      | None =>
          match s with
          | [] => []
          | c :: s' => c :: sub_from fuel' alts repl s'
          end
      end
  end.

Definition sub (alts : list str) (repl : str -> str) (s : str) : str :=
  sub_from (S (List.length s)) alts repl s.

End Re.


(** ** Mention markers

    The marker syntaxes of the protocol, for the statements below. *)

Module Marker.

Definition lt : char := 60%N.   (* < *)
Definition gt : char := 62%N.   (* > *)

(** One or more decimal digits. *)
Definition is_id (d : str) : Prop := d <> [] /\ forallb is_digit d = true.

Definition user (d : str) : str := lit "<@" ++ d ++ lit ">".
Definition nick (d : str) : str := lit "<@!" ++ d ++ lit ">".
Definition role (d : str) : str := lit "<@&" ++ d ++ lit ">".
Definition channel (d : str) : str := lit "<#" ++ d ++ lit ">".

(** A mention marker: one of the four forms around an id. *)
Definition is_marker (m : str) : Prop :=
  exists d, is_id d /\
            (m = user d \/ m = nick d \/ m = role d \/ m = channel d).

(** A string between angle brackets with no angle bracket inside. *)
Definition bracketed (m : str) : Prop :=
  exists body, m = lt :: body ++ [gt] /\
               forall c, In c body -> c <> lt /\ c <> gt.

End Marker.

(** ** What message.py takes from [discord.utils] *)

Module Utils.

(** The exceptions the modelled code can raise. *)
Inductive exn := AttributeError | TypeError | ValueError.

(** What a call returns, or the exception that it raises.  An exception
    ends the call: the object that a hydration had half written when it
    raised is not kept. *)

Inductive result (A : Type) : Type :=
| Ok (a : A)
| Raise (e : exn).

Arguments Ok {A} a.
Arguments Raise {A} e.

Definition bind {A B : Type} (r : result A) (k : A -> result B) : result B :=
  match r with
  | Ok a => k a
  | Raise e => Raise e
  end.

(** A [for] loop whose body may raise. *)
Fixpoint for_each {A S : Type} (body : A -> S -> result S) (xs : list A)
    (s : S) : result S :=
  match xs with
  | [] => Ok s
  | x :: xs' => bind (body x s) (for_each body xs')
  end.

(** Modelled from the spec: [utils.cached_slot_property] is not part of the
    sources at hand.  The spec has it as a per-instance slot that is read
    when it is set and otherwise filled, on first access, with what the
    decorated function computes. *)
Definition cached_slot_property {S A : Type} (slot : S -> option A)
    (set_slot : option A -> S -> S) (function : S -> result A)
    (instance : S) : result (A * S) :=
  match slot instance with
  | Some value => Ok (value, instance)
  | None =>
      bind (function instance)
        (fun value => Ok (value, set_slot (Some value) instance))
  end.

(** Modelled from the spec: [utils.get(iterable, id=v)] is not part of the
    sources at hand.  The spec asks for a collection searchable by id; the
    first element with that id is the one found. *)
Definition get {A : Type} (attr : A -> str) (iterable : list A) (v : str)
    : option A :=
  find (fun x => Str.eqb (attr x) v) iterable.

End Utils.

Import Utils.

Notation "x <- r ;; k" := (bind r (fun x => k))
  (at level 61, r at next level, right associativity).

(** ** The collaborators: what message.py reads from them

    Member, role, channel and server objects belong to other modules of the
    library; only the attributes and lookups that message.py uses appear. *)

Module Member.
Record t : Type := { id : str; display_name : str }.
End Member.

Module Role.
Record t : Type := { id : str; name : str }.
End Role.

Module Channel.
Record t : Type := { id : str; name : str }.
End Channel.

(** A user fragment of the payload: a dict with (at least) an [id]. *)
Module UserData.
Record t : Type := { id : option str; username : option str }.
(** [{}] *)
Definition empty : t := {| id := None; username := None |}.
End UserData.

(** Modelled from the spec: the constructor of [User] in discord/user.py, the
    lightweight identity parsed from the payload's [author] fragment. *)
Module User.
Record t : Type := { id : option str; name : option str }.
Definition init (kwargs : UserData.t) : t :=
  {| id := UserData.id kwargs; name := UserData.username kwargs |}.
End User.

(** The roster lookups of a server: [get_member(id)], [get_channel(id)] and
    the [roles] collection.  A lookup returns [None] for an unknown id. *)
Module Server.
Record t : Type := {
  get_member : option str -> option Member.t;
  get_channel : str -> option Channel.t;
  roles : list Role.t
}.
End Server.

(** What [Message.channel] can hold: a server channel ([discord.Channel],
    [is_private] is [False], [server] is its owner), a private channel
    ([discord.PrivateChannel], [is_private] is [True], no [server]), or a
    bare [discord.Object], whose [is_private] attribute exists only if
    somebody has set it. *)
Inductive channel_t : Type :=
| TextChannel (c : Channel.t) (server : Server.t)
| PrivateChannel (id : str)
| Object (id : str) (is_private : option bool).

(** [isinstance(ch, Object)] *)
Definition isinstance_Object (ch : option channel_t) : bool :=
  match ch with
  | Some (Object _ _) => true
  | _ => false
  end.

(** [getattr(ch, 'is_private', default)] *)
Definition getattr_is_private (ch : option channel_t) (default : bool) : bool :=
  match ch with
  | None => default
  | Some (TextChannel _ _) => false
  | Some (PrivateChannel _) => true
  | Some (Object _ (Some b)) => b
  | Some (Object _ None) => default
  end.

(** [ch.is_private] *)
Definition attr_is_private (ch : option channel_t) : result bool :=
  match ch with
  | None => Raise AttributeError
  | Some (TextChannel _ _) => Ok false
  | Some (PrivateChannel _) => Ok true
  | Some (Object _ (Some b)) => Ok b
  | Some (Object _ None) => Raise AttributeError
  end.

(** [ch.server] *)
Definition attr_server (ch : option channel_t) : result Server.t :=
  match ch with
  | Some (TextChannel _ srv) => Ok srv
  | _ => Raise AttributeError
  end.

(** [Message.author] is the parsed [User] or the server's [Member]. *)
Inductive author_t : Type :=
| AuthorUser (u : User.t)
| AuthorMember (m : Member.t).

(** [author.id] *)
Definition author_id (a : author_t) : option str :=
  match a with
  | AuthorUser u => User.id u
  | AuthorMember m => Some (Member.id m)
  end.

(** ** Python dicts with string keys and values

    Insertion order is kept; storing under a key that is present replaces
    the value in place.  (Before Python 3.7 the order of the keys was left
    open; it shows in [clean_content] only where one key starts with
    another, see [sub_permutation].) *)

Module Dict.

Definition t := list (str * str).

Fixpoint set (k v : str) (d : t) : t :=
  match d with
  | [] => [(k, v)]
  | (k', v') :: d' =>
      if Str.eqb k' k then (k, v) :: d' else (k', v') :: set k v d'
  end.

(** [{key(x): value(x) for x in xs}] *)
Definition comprehension {A : Type} (key value : A -> str) (xs : list A) : t :=
  fold_left (fun d x => set (key x) (value x) d) xs [].

(** [d.update(other)] *)
Definition update (d other : t) : t :=
  fold_left (fun d kv => set (fst kv) (snd kv) d) other d.

(** [d.get(k, default)] *)
Fixpoint get (d : t) (k default : str) : str :=
  match d with
  | [] => default
  | (k', v) :: d' => if Str.eqb k' k then v else get d' k default
  end.

(** [d.keys()] *)
Definition keys (d : t) : list str := map fst d.

End Dict.

(** ** The message *)

Module Message.

Section WithPayloadTypes.

(** Parsed timestamps and the payload values that the message only stores
    ([tts], [mention_everyone], [embeds], [attachments], [nonce]). *)
Variables datetime json : Type.

(** The date parser behind [utils.parse_time]; it raises on a malformed
    timestamp. *)
Variable strptime : str -> result datetime.

(** Modelled from the spec: [utils.parse_time] is not part of the sources at
    hand.  An absent timestamp maps to [None]; a malformed one propagates
    as a parse failure. *)
Definition parse_time (timestamp : option str) : result (option datetime) :=
  match timestamp with
  | None => Ok None
  | Some s => d <- strptime s ;; Ok (Some d)
  end.

(** The keyword arguments of [_update]: a field is [None] when the key is
    absent from the payload. *)
Record Payload : Type := {
  p_edited_timestamp : option str;
  p_timestamp : option str;
  p_tts : option json;
  p_content : option str;
  p_mention_everyone : option json;
  p_embeds : option json;
  p_id : option str;
  p_channel : option channel_t;
  p_author : option UserData.t;
  p_nonce : option json;
  p_attachments : option json;
  p_channel_id : option str;
  p_mentions : option (list UserData.t);
  p_mention_roles : option (list str)
}.

(** [data.get(key, default)] *)
Definition get_default {A : Type} (v : option A) (default : A) : A :=
  match v with
  | Some a => a
  | None => default
  end.

(** The slots of a [Message].  The four underscore slots are the caches of
    the cached properties: [None] is an unset slot. *)
Record t : Type := {
  edited_timestamp : option datetime;
  timestamp : option datetime;
  tts : option json;
  content : option str;
  channel : option channel_t;
  mention_everyone : option json;
  embeds : option json;
  id : option str;
  mentions : list Member.t;
  author : author_t;
  channel_mentions : list Channel.t;
  server : option Server.t;
  _raw_mentions : option (list str);
  attachments : option json;
  _clean_content : option str;
  _raw_channel_mentions : option (list str);
  nonce : option json;
  role_mentions : list Role.t;
  _raw_role_mentions : option (list str)
}.

Definition __slots__ : list string :=
  [ "edited_timestamp"; "timestamp"; "tts"; "content"; "channel";
    "mention_everyone"; "embeds"; "id"; "mentions"; "author";
    "channel_mentions"; "server"; "_raw_mentions"; "attachments";
    "_clean_content"; "_raw_channel_mentions"; "nonce";
    "role_mentions"; "_raw_role_mentions" ]%string.

Definition set_channel (v : option channel_t) (self : t) : t :=
  {| edited_timestamp := edited_timestamp self;
     timestamp := timestamp self; tts := tts self;
     content := content self; channel := v;
     mention_everyone := mention_everyone self; embeds := embeds self;
     id := id self; mentions := mentions self; author := author self;
     channel_mentions := channel_mentions self; server := server self;
     _raw_mentions := _raw_mentions self;
     attachments := attachments self;
     _clean_content := _clean_content self;
     _raw_channel_mentions := _raw_channel_mentions self;
     nonce := nonce self; role_mentions := role_mentions self;
     _raw_role_mentions := _raw_role_mentions self |}.

Definition set_author (v : author_t) (self : t) : t :=
  {| edited_timestamp := edited_timestamp self;
     timestamp := timestamp self; tts := tts self;
     content := content self; channel := channel self;
     mention_everyone := mention_everyone self; embeds := embeds self;
     id := id self; mentions := mentions self; author := v;
     channel_mentions := channel_mentions self; server := server self;
     _raw_mentions := _raw_mentions self;
     attachments := attachments self;
     _clean_content := _clean_content self;
     _raw_channel_mentions := _raw_channel_mentions self;
     nonce := nonce self; role_mentions := role_mentions self;
     _raw_role_mentions := _raw_role_mentions self |}.

Definition set_server (v : option Server.t) (self : t) : t :=
  {| edited_timestamp := edited_timestamp self;
     timestamp := timestamp self; tts := tts self;
     content := content self; channel := channel self;
     mention_everyone := mention_everyone self; embeds := embeds self;
     id := id self; mentions := mentions self; author := author self;
     channel_mentions := channel_mentions self; server := v;
     _raw_mentions := _raw_mentions self;
     attachments := attachments self;
     _clean_content := _clean_content self;
     _raw_channel_mentions := _raw_channel_mentions self;
     nonce := nonce self; role_mentions := role_mentions self;
     _raw_role_mentions := _raw_role_mentions self |}.

Definition set_mentions (v : list Member.t) (self : t) : t :=
  {| edited_timestamp := edited_timestamp self;
     timestamp := timestamp self; tts := tts self;
     content := content self; channel := channel self;
     mention_everyone := mention_everyone self; embeds := embeds self;
     id := id self; mentions := v; author := author self;
     channel_mentions := channel_mentions self; server := server self;
     _raw_mentions := _raw_mentions self;
     attachments := attachments self;
     _clean_content := _clean_content self;
     _raw_channel_mentions := _raw_channel_mentions self;
     nonce := nonce self; role_mentions := role_mentions self;
     _raw_role_mentions := _raw_role_mentions self |}.

Definition set_channel_mentions (v : list Channel.t) (self : t) : t :=
  {| edited_timestamp := edited_timestamp self;
     timestamp := timestamp self; tts := tts self;
     content := content self; channel := channel self;
     mention_everyone := mention_everyone self; embeds := embeds self;
     id := id self; mentions := mentions self; author := author self;
     channel_mentions := v; server := server self;
     _raw_mentions := _raw_mentions self;
     attachments := attachments self;
     _clean_content := _clean_content self;
     _raw_channel_mentions := _raw_channel_mentions self;
     nonce := nonce self; role_mentions := role_mentions self;
     _raw_role_mentions := _raw_role_mentions self |}.

Definition set_role_mentions (v : list Role.t) (self : t) : t :=
  {| edited_timestamp := edited_timestamp self;
     timestamp := timestamp self; tts := tts self;
     content := content self; channel := channel self;
     mention_everyone := mention_everyone self; embeds := embeds self;
     id := id self; mentions := mentions self; author := author self;
     channel_mentions := channel_mentions self; server := server self;
     _raw_mentions := _raw_mentions self;
     attachments := attachments self;
     _clean_content := _clean_content self;
     _raw_channel_mentions := _raw_channel_mentions self;
     nonce := nonce self; role_mentions := v;
     _raw_role_mentions := _raw_role_mentions self |}.

Definition set__raw_mentions (v : option (list str)) (self : t) : t :=
  {| edited_timestamp := edited_timestamp self;
     timestamp := timestamp self; tts := tts self;
     content := content self; channel := channel self;
     mention_everyone := mention_everyone self; embeds := embeds self;
     id := id self; mentions := mentions self; author := author self;
     channel_mentions := channel_mentions self; server := server self;
     _raw_mentions := v; attachments := attachments self;
     _clean_content := _clean_content self;
     _raw_channel_mentions := _raw_channel_mentions self;
     nonce := nonce self; role_mentions := role_mentions self;
     _raw_role_mentions := _raw_role_mentions self |}.

Definition set__raw_channel_mentions (v : option (list str)) (self : t) : t :=
  {| edited_timestamp := edited_timestamp self;
     timestamp := timestamp self; tts := tts self;
     content := content self; channel := channel self;
     mention_everyone := mention_everyone self; embeds := embeds self;
     id := id self; mentions := mentions self; author := author self;
     channel_mentions := channel_mentions self; server := server self;
     _raw_mentions := _raw_mentions self;
     attachments := attachments self;
     _clean_content := _clean_content self; _raw_channel_mentions := v;
     nonce := nonce self; role_mentions := role_mentions self;
     _raw_role_mentions := _raw_role_mentions self |}.

Definition set__raw_role_mentions (v : option (list str)) (self : t) : t :=
  {| edited_timestamp := edited_timestamp self;
     timestamp := timestamp self; tts := tts self;
     content := content self; channel := channel self;
     mention_everyone := mention_everyone self; embeds := embeds self;
     id := id self; mentions := mentions self; author := author self;
     channel_mentions := channel_mentions self; server := server self;
     _raw_mentions := _raw_mentions self;
     attachments := attachments self;
     _clean_content := _clean_content self;
     _raw_channel_mentions := _raw_channel_mentions self;
     nonce := nonce self; role_mentions := role_mentions self;
     _raw_role_mentions := v |}.

Definition set__clean_content (v : option str) (self : t) : t :=
  {| edited_timestamp := edited_timestamp self;
     timestamp := timestamp self; tts := tts self;
     content := content self; channel := channel self;
     mention_everyone := mention_everyone self; embeds := embeds self;
     id := id self; mentions := mentions self; author := author self;
     channel_mentions := channel_mentions self; server := server self;
     _raw_mentions := _raw_mentions self;
     attachments := attachments self; _clean_content := v;
     _raw_channel_mentions := _raw_channel_mentions self;
     nonce := nonce self; role_mentions := role_mentions self;
     _raw_role_mentions := _raw_role_mentions self |}.

(** The object before [__init__] has run [_update] on it: the cache slots
    are unset; every other slot is written by [_update] before anything
    reads it, so what stands in it here is never seen. *)
Definition blank : t :=
  {| edited_timestamp := None; timestamp := None; tts := None;
     content := None; channel := None; mention_everyone := None;
     embeds := None; id := None; mentions := [];
     author := AuthorUser (User.init UserData.empty);
     channel_mentions := []; server := None; _raw_mentions := None;
     attachments := None; _clean_content := None;
     _raw_channel_mentions := None; nonce := None; role_mentions := [];
     _raw_role_mentions := None |}.

(** [re.findall(pattern, self.content)]: a [TypeError] when [content] is
    not a string. *)
Definition re_findall (pattern : Re.matcher) (content : option str)
    : result (list str) :=
  match content with
  | Some s => Ok (Re.findall pattern s)
  | None => Raise TypeError
  end.

(** [pattern.sub(repl, self.content)] *)
Definition re_sub (alts : list str) (repl : str -> str) (content : option str)
    : result str :=
  match content with
  | Some s => Ok (Re.sub alts repl s)
  | None => Raise TypeError
  end.

(** *** The cached raw mention lists *)

Definition raw_mentions : t -> result (list str * t) :=
  cached_slot_property _raw_mentions set__raw_mentions
    (fun self => re_findall Re.user_pattern (content self)).

Definition raw_channel_mentions : t -> result (list str * t) :=
  cached_slot_property _raw_channel_mentions set__raw_channel_mentions
    (fun self => re_findall Re.channel_pattern (content self)).

Definition raw_role_mentions : t -> result (list str * t) :=
  cached_slot_property _raw_role_mentions set__raw_role_mentions
    (fun self => re_findall Re.role_pattern (content self)).

(** *** [clean_content] *)

(** The dict of the first pass.  Its keys are [re.escape] of the markers; an
    escaped marker, as a pattern, matches that marker and nothing else, and
    [re.escape] is one-to-one, so the dict is keyed here by the marker
    itself and ['|'.join] of the keys is the alternation of the markers. *)
Definition mention_transformations (self : t) : Dict.t :=
  let transformations :=
    Dict.comprehension
      (fun channel => lit "<#" ++ Channel.id channel ++ lit ">")
      (fun channel => lit "#" ++ Channel.name channel)
      (channel_mentions self) in
  let mention_transforms :=
    Dict.comprehension
      (fun member => lit "<@" ++ Member.id member ++ lit ">")
      (fun member => lit "@" ++ Member.display_name member)
      (mentions self) in
  (* add the <@!user_id> cases as well.. *)
  let second_mention_transforms :=
    Dict.comprehension
      (fun member => lit "<@!" ++ Member.id member ++ lit ">")
      (fun member => lit "@" ++ Member.display_name member)
      (mentions self) in
  let transformations := Dict.update transformations mention_transforms in
  let transformations :=
    Dict.update transformations second_mention_transforms in
  match server self with
  | Some _ =>
      let role_transforms :=
        Dict.comprehension
          (fun role => lit "<@&" ++ Role.id role ++ lit ">")
          (fun role => lit "@" ++ Role.name role)
          (role_mentions self) in
      Dict.update transformations role_transforms
  | None => transformations
  end.

(** U+200B, the zero-width space. *)
Definition zwsp : char := 8203%N.

Definition broadcast_transformations : Dict.t :=
  [ (lit "@everyone", lit "@" ++ zwsp :: lit "everyone");
    (lit "@here", lit "@" ++ zwsp :: lit "here") ].

(** The second pass: [pattern.sub(repl2, result)]. *)
Definition defuse_broadcasts (result : str) : str :=
  let transformations := broadcast_transformations in
  let repl2 := fun group0 => Dict.get transformations group0 [] in
  Re.sub (Re.alternation (Dict.keys transformations)) repl2 result.

(** The second pass in the words of its description: every [@] that
    begins a literal [@everyone] or [@here] gets U+200B right after it. *)
Definition broadcast_at (s : str) : bool :=
  match starts_with (lit "@everyone") s, starts_with (lit "@here") s with
  | None, None => false
  | _, _ => true
  end.

Fixpoint zwsp_after_broadcast_at (s : str) : str :=
  match s with
  | [] => []
  | c :: s' =>
      if broadcast_at s then c :: zwsp :: zwsp_after_broadcast_at s'
      else c :: zwsp_after_broadcast_at s'
  end.

(** The first pass: [pattern.sub(repl, content)] with the mention dict. *)
Definition substitute_mentions (self : t) (content : str) : str :=
  let transformations := mention_transformations self in
  let repl := fun group0 => Dict.get transformations group0 [] in
  Re.sub (Re.alternation (Dict.keys transformations)) repl content.

Definition clean_content_function (self : t) : result str :=
  let transformations := mention_transformations self in
  let repl := fun group0 => Dict.get transformations group0 [] in
  let pattern := Re.alternation (Dict.keys transformations) in
  result <- re_sub pattern repl (content self) ;;
  Ok (defuse_broadcasts result).

Definition clean_content : t -> result (str * t) :=
  cached_slot_property _clean_content set__clean_content
    clean_content_function.

(** *** Hydration *)

Definition _handle_upgrades (channel_id : option str) (self : t) : result t :=
  let self := set_server None self in
  if isinstance_Object (channel self) then Ok self
  else
    match channel self with
    | None =>
        match channel_id with
        | Some cid => Ok (set_channel (Some (Object cid (Some true))) self)
        | None => Ok self
        end
    | Some _ =>
        is_private <- attr_is_private (channel self) ;;
        if negb is_private then
          srv <- attr_server (channel self) ;;
          let self := set_server (Some srv) self in
          match Server.get_member srv (author_id (author self)) with
          | Some found => Ok (set_author (AuthorMember found) self)
          | None => Ok self
          end
        else Ok self
    end.

(** [self.server.get_member], [self.server.get_channel], [self.server.roles]:
    an [AttributeError] when [self.server] is [None]. *)
Definition the_server (self : t) : result Server.t :=
  match server self with
  | Some srv => Ok srv
  | None => Raise AttributeError
  end.

Definition _handle_mentions (mentions_data : list UserData.t)
    (role_mentions_data : list str) (self : t) : result t :=
  let self := set_mentions [] self in
  let self := set_channel_mentions [] self in
  let self := set_role_mentions [] self in
  if getattr_is_private (channel self) true then Ok self
  else
    self <-
      match channel self with
      | Some _ =>
          for_each
            (fun mention self =>
               let id_search := UserData.id mention in
               srv <- the_server self ;;
               match Server.get_member srv id_search with
               | Some member =>
                   Ok (set_mentions (mentions self ++ [member]) self)
               | None => Ok self
               end)
            mentions_data self
      | None => Ok self
      end ;;
    match server self with
    | Some srv =>
        r <- raw_channel_mentions self ;;
        let (found, self) := r in
        self <-
          for_each
            (fun mention self =>
               srv <- the_server self ;;
               match Server.get_channel srv mention with
               | Some channel =>
                   Ok (set_channel_mentions
                         (channel_mentions self ++ [channel]) self)
               | None => Ok self
               end)
            found self ;;
        for_each
          (fun role_id self =>
             srv <- the_server self ;;
             match Utils.get Role.id (Server.roles srv) role_id with
             | Some role =>
                 Ok (set_role_mentions (role_mentions self ++ [role]) self)
             | None => Ok self
             end)
          role_mentions_data self
    | None => Ok self
    end.

(** [filter(lambda attr: attr[0] == '_', self.__slots__)] *)
Definition cached : list string :=
  filter
    (fun attr =>
       match attr with
       | String c _ => Ascii.eqb c "_"
       | EmptyString => false
       end)
    __slots__.

(** [delattr(self, attr)] of a cache slot: an [AttributeError] when the slot
    is unset.  [_update] deletes no other slot (see [cached]), and the
    other slots have no unset state here. *)
Definition delattr (attr : string) (self : t) : result t :=
  let unset {A : Type} (slot : option A) (cleared : t) : result t :=
    match slot with
    | Some _ => Ok cleared
    | None => Raise AttributeError
    end in
  if String.eqb attr "_raw_mentions" then
    unset (_raw_mentions self) (set__raw_mentions None self)
  else if String.eqb attr "_clean_content" then
    unset (_clean_content self) (set__clean_content None self)
  else if String.eqb attr "_raw_channel_mentions" then
    unset (_raw_channel_mentions self) (set__raw_channel_mentions None self)
  else if String.eqb attr "_raw_role_mentions" then
    unset (_raw_role_mentions self) (set__raw_role_mentions None self)
  else Ok self.

Definition _update (data : Payload) (self : t) : result t :=
  edited <- parse_time (p_edited_timestamp data) ;;
  created <- parse_time (p_timestamp data) ;;
  let self :=
    {| edited_timestamp := edited;
       timestamp := created;
       tts := p_tts data;
       content := p_content data;
       mention_everyone := p_mention_everyone data;
       embeds := p_embeds data;
       id := p_id data;
       channel := p_channel data;
       author := AuthorUser (User.init (get_default (p_author data) UserData.empty));
       nonce := p_nonce data;
       attachments := p_attachments data;
       (* assigned by the two calls below *)
       server := server self;
       mentions := mentions self;
       channel_mentions := channel_mentions self;
       role_mentions := role_mentions self;
       (* left as they are until the end *)
       _raw_mentions := _raw_mentions self;
       _clean_content := _clean_content self;
       _raw_channel_mentions := _raw_channel_mentions self;
       _raw_role_mentions := _raw_role_mentions self |} in
  self <- _handle_upgrades (p_channel_id data) self ;;
  self <- _handle_mentions (get_default (p_mentions data) [])
            (get_default (p_mention_roles data) []) self ;;
  (* clear the cached properties *)
  Ok (fold_left
        (fun self attr =>
           match delattr attr self with
           | Ok self' => self'
           | Raise _ => self       (* except AttributeError: pass *)
           end)
        cached self).

(** The constructor: [_update] on the new object. *)
Definition __init__ (kwargs : Payload) : result t := _update kwargs blank.

(** *** Vocabulary for the statements below *)

(** The entities that a lookup finds for a list of ids, in the order of the
    ids; an id that is not found contributes nothing. *)
Definition resolve {A B : Type} (lookup : A -> option B) (ids : list A)
    : list B :=
  flat_map (fun i => match lookup i with Some e => [e] | None => [] end) ids.

(** The channel after [_handle_upgrades]: the payload's channel, or the
    placeholder made from [channel_id] when the payload has none. *)
Definition upgraded_channel (data : Payload) : option channel_t :=
  match p_channel data with
  | Some ch => Some ch
  | None =>
      match p_channel_id data with
      | Some cid => Some (Object cid (Some true))
      | None => None
      end
  end.

(** The author parsed from the payload. *)
Definition parsed_author (data : Payload) : author_t :=
  AuthorUser (User.init (get_default (p_author data) UserData.empty)).

(** The author after the upgrade against the roster of [srv]. *)
Definition upgraded_author (data : Payload) (srv : Server.t) : author_t :=
  match Server.get_member srv (author_id (parsed_author data)) with
  | Some found => AuthorMember found
  | None => parsed_author data
  end.

(** A message as a completed hydration leaves it: the payload's fields, the
    given relationships, and every cache slot unset. *)
Definition hydrated_message (data : Payload)
    (edited created : option datetime) (srv : option Server.t)
    (who : author_t) (ms : list Member.t) (cms : list Channel.t)
    (rms : list Role.t) : t :=
  {| edited_timestamp := edited; timestamp := created; tts := p_tts data;
     content := p_content data; channel := upgraded_channel data;
     mention_everyone := p_mention_everyone data; embeds := p_embeds data;
     id := p_id data; mentions := ms; author := who;
     channel_mentions := cms; server := srv; _raw_mentions := None;
     attachments := p_attachments data; _clean_content := None;
     _raw_channel_mentions := None; nonce := p_nonce data;
     role_mentions := rms; _raw_role_mentions := None |}.

(** The object that [_update] hands to [_handle_upgrades]. *)
Definition assigned (data : Payload) (edited created : option datetime)
    (self : t) : t :=
  {| edited_timestamp := edited; timestamp := created; tts := p_tts data;
     content := p_content data; channel := p_channel data;
     mention_everyone := p_mention_everyone data; embeds := p_embeds data;
     id := p_id data; mentions := mentions self;
     author := parsed_author data;
     channel_mentions := channel_mentions self; server := server self;
     _raw_mentions := _raw_mentions self;
     attachments := p_attachments data;
     _clean_content := _clean_content self;
     _raw_channel_mentions := _raw_channel_mentions self;
     nonce := p_nonce data; role_mentions := role_mentions self;
     _raw_role_mentions := _raw_role_mentions self |}.

Definition cleared (self : t) : t :=
  set__raw_mentions None
    (set__clean_content None
       (set__raw_channel_mentions None (set__raw_role_mentions None self))).

(** The channel list that [_handle_mentions] resolves: the cache slot when
    it is set, the extraction from the new content otherwise. *)
Definition channel_ids_seen (data : Payload) (self : t) : result (list str) :=
  match _raw_channel_mentions self with
  | Some v => Ok v
  | None => re_findall Re.channel_pattern (p_content data)
  end.

(** The ids of the resolved entities are decimal, as the ids of the
    protocol are. *)
Definition decimal_ids (self : t) : Prop :=
  (forall m, In m (mentions self) ->
             forallb is_digit (Member.id m) = true) /\
  (forall c, In c (channel_mentions self) ->
             forallb is_digit (Channel.id c) = true) /\
  (forall r, In r (role_mentions self) ->
             forallb is_digit (Role.id r) = true).

(** The value a property access returns, without the updated object. *)
Definition value {A : Type} (r : result (A * t)) : result A :=
  x <- r ;; Ok (fst x).

(** The messages a caller can hold: what a completed hydration returns, and
    what reading the cached properties makes of it. *)
Inductive hydrated : t -> Prop :=
| hydrated_update data self self' :
    _update data self = Ok self' -> hydrated self'
| hydrated_raw_mentions self v self' :
    hydrated self -> raw_mentions self = Ok (v, self') -> hydrated self'
| hydrated_raw_channel_mentions self v self' :
    hydrated self -> raw_channel_mentions self = Ok (v, self') ->
    hydrated self'
| hydrated_raw_role_mentions self v self' :
    hydrated self -> raw_role_mentions self = Ok (v, self') -> hydrated self'
| hydrated_clean_content self v self' :
    hydrated self -> clean_content self = Ok (v, self') -> hydrated self'.

End WithPayloadTypes.

End Message.


(** ** A small server, for the examples *)

Module Scenario.

(** A date parser for the examples: it takes the text as the date and
    rejects only the empty text. *)
Definition strptime (s : str) : result str :=
  match s with
  | [] => Raise ValueError
  | _ => Ok s
  end.

Definition alice : Member.t :=
  {| Member.id := lit "123"; Member.display_name := lit "Alice" |}.

Definition general : Channel.t :=
  {| Channel.id := lit "1"; Channel.name := lit "general" |}.

Definition random : Channel.t :=
  {| Channel.id := lit "2"; Channel.name := lit "random" |}.

Definition mods : Role.t :=
  {| Role.id := lit "7"; Role.name := lit "mods" |}.

Definition guild : Server.t :=
  {| Server.get_member := fun i =>
       match i with
       | Some i => if Str.eqb i (lit "123") then Some alice else None
       | None => None
       end;
     Server.get_channel := fun i =>
       if Str.eqb i (lit "1") then Some general
       else if Str.eqb i (lit "2") then Some random
       else None;
     Server.roles := [mods] |}.

(** The same server before anybody joined. *)
Definition empty_guild : Server.t :=
  {| Server.get_member := fun _ => None;
     Server.get_channel := fun _ => None;
     Server.roles := [] |}.

(** The creation time of every example payload, parsed. *)
Definition posted_at : option str :=
  Some (lit "2015-08-21T12:03:45.782000+00:00").

Definition user (i : string) : UserData.t :=
  {| UserData.id := Some (lit i); UserData.username := None |}.

(** A payload with the given channel, channel id, content, user mentions
    and role mentions, and nothing else. *)
Definition payload (ch : option channel_t) (channel_id : option str)
    (text : option str) (users : list UserData.t) (role_ids : list str)
    : Message.Payload unit :=
  {| Message.p_edited_timestamp := None;
     Message.p_timestamp := Some (lit "2015-08-21T12:03:45.782000+00:00");
     Message.p_tts := None;
     Message.p_content := text;
     Message.p_mention_everyone := None;
     Message.p_embeds := None;
     Message.p_id := Some (lit "42");
     Message.p_channel := ch;
     Message.p_author := Some (user "123");
     Message.p_nonce := None;
     Message.p_attachments := None;
     Message.p_channel_id := channel_id;
     Message.p_mentions := Some users;
     Message.p_mention_roles := Some role_ids |}.

(** A message posted in [#general] of [guild]. *)
Definition in_general (text : string) (users : list UserData.t)
    : Message.Payload unit :=
  payload (Some (TextChannel general guild)) (Some (lit "1"))
    (Some (lit text)) users [].

(** The same message where the roster is empty. *)
Definition in_empty_guild (text : string) (users : list UserData.t)
    : Message.Payload unit :=
  payload (Some (TextChannel general empty_guild)) (Some (lit "1"))
    (Some (lit text)) users [].

(** A message in a private channel. *)
Definition in_private (text : string) (users : list UserData.t)
    : Message.Payload unit :=
  payload (Some (PrivateChannel (lit "9"))) (Some (lit "9"))
    (Some (lit text)) users [lit "7"].

(** A message whose channel is known by its id only. *)
Definition in_unknown (text : option str) : Message.Payload unit :=
  payload None (Some (lit "5")) text [user "123"] [lit "7"].

(** The message built from a payload, the message after a read of
    [raw_channel_mentions], and the message hydrated again. *)
Definition built (data : Message.Payload unit) : Message.t str unit :=
  match Message.__init__ strptime data with
  | Ok m => m
  | Raise _ => Message.blank str unit
  end.

Definition after_reading_channels (m : Message.t str unit)
    : Message.t str unit :=
  match Message.raw_channel_mentions m with
  | Ok (_, m') => m'
  | Raise _ => m
  end.

Definition updated (data : Message.Payload unit) (m : Message.t str unit)
    : Message.t str unit :=
  match Message._update strptime data m with
  | Ok m' => m'
  | Raise _ => m
  end.

End Scenario.

(** * Properties *)

(** A character is not among those of a literal. *)
Ltac not_in_literal :=
  let H := fresh "H" in
  simpl; intros H;
  repeat (destruct H as [H|H]; [discriminate|]); exact H.

(** ** Strings *)

Section Strings.

Lemma starts_with_spec (p s r : str) :
  starts_with p s = Some r <-> s = p ++ r.
Proof.
  revert s. induction p as [|c p IH]; intros s; simpl.
  - split; [now intros [= ->] | now intros ->].
  - destruct s as [|d s]; [split; discriminate|].
    destruct (N.eqb_spec c d) as [->|Hne].
    + rewrite IH. split; [now intros -> | now intros [= ->]].
    + split; [discriminate | intros [= -> _]; now elim Hne].
Qed.

Lemma starts_with_app (p r : str) : starts_with p (p ++ r) = Some r.
Proof. now apply starts_with_spec. Qed.

Lemma starts_with_app_app (a p s : str) :
  starts_with (a ++ p) (a ++ s) = starts_with p s.
Proof.
  induction a as [|c a IH]; [reflexivity|]. cbn [app starts_with].
  now rewrite N.eqb_refl.
Qed.

Lemma starts_with_length (p s r : str) :
  starts_with p s = Some r -> List.length s = List.length p + List.length r.
Proof. intros H. apply starts_with_spec in H. subst. apply length_app. Qed.

(** A prefix test is not affected by what is appended behind a character
    that the pattern does not contain. *)
Lemma starts_with_before (p s x : str) (c : char) :
  ~ In c p ->
  (x = [] \/ exists x', x = c :: x') ->
  starts_with p (s ++ x) = option_map (fun r => r ++ x) (starts_with p s).
Proof.
  intros Hp Hx. revert s. induction p as [|a p IH]; intros s; simpl.
  - reflexivity.
  - destruct s as [|d s]; simpl.
    + destruct Hx as [->|[x' ->]]; [reflexivity|].
      destruct (N.eqb_spec a c) as [->|_]; [|reflexivity].
      elim Hp. now left.
    + destruct (N.eqb a d); [|reflexivity].
      apply IH. intros H. apply Hp. now right.
Qed.

Lemma span_digits_app (d rest : str) :
  forallb is_digit d = true ->
  match rest with [] => True | c :: _ => is_digit c = false end ->
  span_digits (d ++ rest) = (d, rest).
Proof.
  intros Hd Hr. induction d as [|c d IH]; simpl in *.
  - destruct rest as [|c rest]; [reflexivity|]. simpl. now rewrite Hr.
  - apply andb_prop in Hd. destruct Hd as [Hc Hd].
    now rewrite Hc, (IH Hd).
Qed.

Lemma span_digits_spec (s d r : str) :
  span_digits s = (d, r) ->
  s = d ++ r /\ forallb is_digit d = true /\
  match r with [] => True | c :: _ => is_digit c = false end.
Proof.
  revert d r. induction s as [|c s IH]; intros d r; simpl.
  - intros [= <- <-]. now repeat split.
  - destruct (is_digit c) eqn:Hc.
    + destruct (span_digits s) as [d' r']. intros [= <- <-].
      destruct (IH _ _ eq_refl) as (-> & Hd & Hr).
      simpl. rewrite Hc. now repeat split.
    + intros [= <- <-]. now repeat split.
Qed.

(** The digit run does not see what is appended behind a non-digit. *)
Lemma span_digits_before (s x : str) :
  match x with [] => True | c :: _ => is_digit c = false end ->
  span_digits (s ++ x) = (fst (span_digits s), snd (span_digits s) ++ x).
Proof.
  intros Hx. induction s as [|c s IH]; simpl.
  - destruct x as [|c x]; [reflexivity|]. simpl. now rewrite Hx.
  - destruct (is_digit c); [|reflexivity].
    rewrite IH. now destruct (span_digits s).
Qed.

Lemma eqb_eq (a b : str) : Str.eqb a b = true <-> a = b.
Proof.
  revert b. induction a as [|c a IH]; intros [|d b]; simpl;
    try (split; [discriminate|discriminate]); [now split|].
  rewrite andb_true_iff, N.eqb_eq, IH.
  split; [now intros [-> ->] | now intros [= -> ->]].
Qed.

Lemma occurs_cons (p : str) (c : char) (s : str) :
  occurs p (c :: s)
  = match starts_with p (c :: s) with
    | Some _ => true
    | None => occurs p s
    end.
Proof. reflexivity. Qed.

End Strings.


(** ** The extraction patterns without backtracking *)

Section Backtracking.

Lemma run_literal (q : str) (p : Re.regex) (s g : str) :
  Re.run (Re.literal q ++ p) s g
  = match starts_with q s with
    | Some t => Re.run p t g
    | None => None
    end.
Proof.
  revert s. induction q as [|c q IH]; intros s; [reflexivity|].
  cbn [Re.literal map app Re.run starts_with].
  destruct s as [|d s]; [reflexivity|].
  rewrite N.eqb_sym. destruct (N.eqb c d); [apply IH|reflexivity].
Qed.

Lemma run_literal_end (q s g : str) :
  Re.run (Re.literal q) s g
  = match starts_with q s with
    | Some t => Some (g, t)
    | None => None
    end.
Proof.
  rewrite <- (app_nil_r (Re.literal q)). apply run_literal.
Qed.

Lemma first_success_app (A B : Type) (f : A -> option B) (xs ys : list A) :
  Re.first_success f (xs ++ ys)
  = match Re.first_success f xs with
    | Some b => Some b
    | None => Re.first_success f ys
    end.
Proof.
  induction xs as [|x xs IH]; [reflexivity|]. simpl.
  now destruct (f x).
Qed.

Lemma first_success_map (A B C : Type) (h : A -> B) (f : B -> option C)
    (xs : list A) :
  Re.first_success f (map h xs) = Re.first_success (fun x => f (h x)) xs.
Proof.
  induction xs as [|x xs IH]; [reflexivity|]. simpl. now rewrite IH.
Qed.

Lemma first_success_ext (A B : Type) (f f' : A -> option B) (xs : list A) :
  (forall x, f x = f' x) ->
  Re.first_success f xs = Re.first_success f' xs.
Proof.
  intros E. induction xs as [|x xs IH]; [reflexivity|]. simpl.
  now rewrite E, IH.
Qed.

(** Going back to a shorter run of digits never helps: behind it there is
    a digit, and the pattern wants [>]. *)
Lemma digits_then_closing (pre s : str) :
  Re.first_success
    (fun dr => Re.run (Re.literal (lit ">")) (snd dr) (pre ++ fst dr))
    (Re.digit_runs s)
  = match span_digits s with
    | ([], _) => None
    | (d, r) =>
        match starts_with (lit ">") r with
        | Some rest => Some (pre ++ d, rest)
        | None => None
        end
    end.
Proof.
  revert pre. induction s as [|c s IH]; intros pre; [reflexivity|].
  cbn [Re.digit_runs span_digits].
  destruct (is_digit c) eqn:Hc; [|reflexivity].
  rewrite first_success_app, first_success_map. cbn [fst snd].
  rewrite (@first_success_ext _ _ _
             (fun dr => Re.run (Re.literal (lit ">")) (snd dr)
                          ((pre ++ [c]) ++ fst dr)))
    by (intros dr; now rewrite <- app_assoc).
  rewrite IH.
  destruct (span_digits s) as [d r] eqn:Hs.
  apply span_digits_spec in Hs. destruct Hs as (-> & Hd & Hr).
  destruct d as [|d0 d].
  - cbn [Re.first_success fst snd app]. rewrite run_literal_end.
    now destruct (starts_with (lit ">") r).
  - rewrite <- app_assoc. cbn [app].
    destruct (starts_with (lit ">") r) as [rest|]; [reflexivity|].
    cbn [Re.first_success fst snd]. rewrite run_literal_end.
    simpl in Hd. apply andb_prop in Hd. destruct Hd as [Hd0 _].
    change (lit ">") with [62%N]. cbn [starts_with app].
    destruct (N.eqb_spec 62%N d0) as [<-|]; [discriminate|reflexivity].
Qed.

Lemma run_digits_group (s : str) :
  Re.run ([Re.Digits] ++ Re.literal (lit ">")) s []
  = Re.digits_group (lit ">") s.
Proof.
  cbn [app Re.run]. unfold Re.digits_group.
  rewrite (@first_success_ext _ _ _
             (fun dr => Re.run (Re.literal (lit ">")) (snd dr)
                          ([] ++ fst dr)))
    by reflexivity.
  rewrite digits_then_closing.
  destruct (span_digits s) as [[|d0 d] r]; reflexivity.
Qed.

(** [<@!?([0-9]+)>] matches what is found by taking [<@], the [!] if it is
    there, and the longest run of digits, in front of [>]. *)
Lemma user_pattern_scan (s : str) :
  Re.user_pattern s
  = match starts_with (lit "<@") s with
    | Some t => Re.digits_group (lit ">") (Re.optional 33%N t)
    | None => None
    end.
Proof.
  unfold Re.user_pattern, Re.user_regex. rewrite run_literal.
  destruct (starts_with (lit "<@") s) as [t|]; [|reflexivity].
  change ([Re.Opt 33%N; Re.Digits] ++ Re.literal (lit ">"))
    with (Re.Opt 33%N :: ([Re.Digits] ++ Re.literal (lit ">"))).
  cbn [Re.run]. rewrite !run_digits_group.
  destruct t as [|d t]; [reflexivity|]. cbn [Re.optional].
  destruct (N.eqb_spec d 33%N) as [->|_].
  - rewrite run_digits_group.
    now destruct (Re.digits_group (lit ">") t).
  - reflexivity.
Qed.

Lemma channel_pattern_scan (s : str) :
  Re.channel_pattern s
  = match starts_with (lit "<#") s with
    | Some t => Re.digits_group (lit ">") t
    | None => None
    end.
Proof.
  unfold Re.channel_pattern, Re.channel_regex. rewrite run_literal.
  destruct (starts_with (lit "<#") s) as [t|]; [|reflexivity].
  apply run_digits_group.
Qed.

Lemma role_pattern_scan (s : str) :
  Re.role_pattern s
  = match starts_with (lit "<@&") s with
    | Some t => Re.digits_group (lit ">") t
    | None => None
    end.
Proof.
  unfold Re.role_pattern, Re.role_regex. rewrite run_literal.
  destruct (starts_with (lit "<@&") s) as [t|]; [|reflexivity].
  apply run_digits_group.
Qed.

End Backtracking.

(** ** Scanning with [re.findall] *)

Section Scanning.

Variable p : Re.matcher.

(** A match is not empty. *)
Hypothesis p_consumes :
  forall s g r, p s = Some (g, r) -> List.length r < List.length s.

Lemma findall_from_fuel (fuel1 fuel2 : nat) (s : str) :
  List.length s <= fuel1 -> List.length s <= fuel2 ->
  Re.findall_from fuel1 p s = Re.findall_from fuel2 p s.
Proof.
  revert fuel2 s.
  induction fuel1 as [|fuel1 IH]; intros fuel2 s H1 H2.
  - destruct s; [|simpl in H1; lia]. now destruct fuel2.
  - destruct fuel2 as [|fuel2].
    + destruct s; [reflexivity | simpl in H2; lia].
    + simpl. destruct s as [|c s]; [reflexivity|]. simpl in H1, H2.
      destruct (p (c :: s)) as [[g r]|] eqn:E.
      * apply p_consumes in E. simpl in E. f_equal. apply IH; lia.
      * apply IH; lia.
Qed.

(** One step of the scan. *)
Lemma findall_cons (c : char) (s : str) :
  Re.findall p (c :: s)
  = match p (c :: s) with
    | Some (g, r) => g :: Re.findall p r
    | None => Re.findall p s
    end.
Proof.
  unfold Re.findall at 1. simpl.
  destruct (p (c :: s)) as [[g r]|] eqn:E.
  - apply p_consumes in E. simpl in E. f_equal.
    apply findall_from_fuel; [lia | reflexivity].
  - reflexivity.
Qed.

(** A match starts with [<]. *)
Hypothesis p_head :
  forall s g r, p s = Some (g, r) -> exists s', s = Marker.lt :: s'.

(** A match does not see what is appended behind a [<]. *)
Hypothesis p_local :
  forall s x,
    s <> [] -> (x = [] \/ exists x', x = Marker.lt :: x') ->
    p (s ++ x) = option_map (fun gr => (fst gr, snd gr ++ x)) (p s).

(** The scan of a text splits at every [<]. *)
Lemma findall_app (s x : str) :
  (x = [] \/ exists x', x = Marker.lt :: x') ->
  Re.findall p (s ++ x) = Re.findall p s ++ Re.findall p x.
Proof.
  intros Hx.
  remember (List.length s) as n eqn:Hn. revert s Hn.
  induction n as [n IH] using lt_wf_ind. intros s Hn.
  destruct s as [|c s]; [reflexivity|].
  change ((c :: s) ++ x) with (c :: (s ++ x)).
  rewrite !findall_cons.
  change (c :: (s ++ x)) with ((c :: s) ++ x).
  rewrite p_local by (trivial; discriminate).
  destruct (p (c :: s)) as [[g r]|] eqn:E; simpl.
  - apply p_consumes in E. f_equal. apply (IH (List.length r)); lia.
  - apply (IH (List.length s)); simpl in Hn; lia.
Qed.

(** Nothing is found inside a text without [<]. *)
Lemma findall_skip (w s : str) :
  ~ In Marker.lt w ->
  Re.findall p (w ++ s) = Re.findall p s.
Proof.
  induction w as [|c w IH]; intros Hw; [reflexivity|].
  change ((c :: w) ++ s) with (c :: (w ++ s)).
  rewrite findall_cons.
  destruct (p (c :: w ++ s)) as [[g r]|] eqn:E.
  - apply p_head in E. destruct E as [s' [= -> _]]. elim Hw. now left.
  - apply IH. intros H. apply Hw. now right.
Qed.

(** A token that starts with its only [<] and that the pattern does not
    match adds nothing to what is found around it. *)
Lemma findall_token_unmatched (pre body post : str) :
  ~ In Marker.lt body ->
  p ((Marker.lt :: body) ++ post) = None ->
  Re.findall p (pre ++ (Marker.lt :: body) ++ post)
  = Re.findall p pre ++ Re.findall p post.
Proof.
  intros Hb Hp.
  rewrite findall_app by (right; now eexists). f_equal.
  change ((Marker.lt :: body) ++ post) with (Marker.lt :: (body ++ post)) in *.
  rewrite findall_cons, Hp. now apply findall_skip.
Qed.

(** A token that the pattern matches as a whole adds its group. *)
Lemma findall_token_matched (pre tok post g : str) :
  (exists body, tok = Marker.lt :: body) ->
  p (tok ++ post) = Some (g, post) ->
  Re.findall p (pre ++ tok ++ post)
  = Re.findall p pre ++ g :: Re.findall p post.
Proof.
  intros [body ->] Hp.
  rewrite findall_app by (right; now eexists). f_equal.
  change ((Marker.lt :: body) ++ post) with (Marker.lt :: (body ++ post)) in *.
  now rewrite findall_cons, Hp.
Qed.

End Scanning.

(** ** The three extraction patterns *)

Section Patterns.

Lemma starts_with_lt_before (q s x : str) :
  ~ In Marker.lt q -> s <> [] ->
  (x = [] \/ exists x', x = Marker.lt :: x') ->
  starts_with (Marker.lt :: q) (s ++ x)
  = option_map (fun r => r ++ x) (starts_with (Marker.lt :: q) s).
Proof.
  intros Hq Hs Hx. destruct s as [|c s]; [now elim Hs|].
  cbn [starts_with app].
  destruct (N.eqb Marker.lt c); [|reflexivity].
  now apply starts_with_before with (c := Marker.lt).
Qed.

Lemma optional_before (c : char) (t x : str) :
  c <> Marker.lt ->
  (x = [] \/ exists x', x = Marker.lt :: x') ->
  Re.optional c (t ++ x) = Re.optional c t ++ x.
Proof.
  intros Hc Hx. destruct t as [|d t]; cbn [Re.optional app].
  - destruct Hx as [->|[x' ->]]; [reflexivity|]. cbn [Re.optional].
    destruct (N.eqb_spec Marker.lt c) as [E|_]; [now elim Hc|reflexivity].
  - now destruct (N.eqb d c).
Qed.

Lemma optional_length (c : char) (t : str) :
  List.length (Re.optional c t) <= List.length t.
Proof.
  destruct t as [|d t]; simpl; [lia|]. destruct (N.eqb d c); simpl; lia.
Qed.

Lemma digits_group_before (s x : str) :
  (x = [] \/ exists x', x = Marker.lt :: x') ->
  Re.digits_group (lit ">") (s ++ x)
  = option_map (fun gr => (fst gr, snd gr ++ x))
      (Re.digits_group (lit ">") s).
Proof.
  intros Hx. unfold Re.digits_group.
  rewrite span_digits_before
    by (destruct Hx as [->|[x' ->]]; [exact I|reflexivity]).
  destruct (span_digits s) as [g r]. cbn [fst snd].
  destruct g as [|c g]; [reflexivity|].
  rewrite (@starts_with_before (lit ">") r x Marker.lt); trivial.
  - now destruct (starts_with (lit ">") r).
  - simpl. intros [H|[]]. discriminate.
Qed.

Lemma digits_group_consumes (closing s g r : str) :
  Re.digits_group closing s = Some (g, r) ->
  List.length r < List.length s.
Proof.
  unfold Re.digits_group. destruct (span_digits s) as [g' r'] eqn:E.
  apply span_digits_spec in E. destruct E as (-> & _ & _).
  destruct g' as [|c g']; [discriminate|].
  destruct (starts_with closing r') as [rest|] eqn:F; [|discriminate].
  intros [= <- <-]. apply starts_with_length in F.
  rewrite length_app. simpl. lia.
Qed.

(** The digit run of an id in front of [>]. *)
Lemma digits_group_id (d rest : str) :
  Marker.is_id d ->
  Re.digits_group (lit ">") (d ++ lit ">" ++ rest) = Some (d, rest).
Proof.
  intros [Hne Hd]. unfold Re.digits_group.
  rewrite span_digits_app; [ | exact Hd | reflexivity ].
  destruct d; [now elim Hne|reflexivity].
Qed.

Lemma user_pattern_consumes (s g r : str) :
  Re.user_pattern s = Some (g, r) -> List.length r < List.length s.
Proof.
  rewrite !user_pattern_scan.
  destruct (starts_with (lit "<@") s) as [t|] eqn:E; [|discriminate].
  intros H. apply digits_group_consumes in H.
  apply starts_with_length in E.
  pose proof (optional_length 33%N t). simpl in E. lia.
Qed.

Lemma channel_pattern_consumes (s g r : str) :
  Re.channel_pattern s = Some (g, r) -> List.length r < List.length s.
Proof.
  rewrite !channel_pattern_scan.
  destruct (starts_with (lit "<#") s) as [t|] eqn:E; [|discriminate].
  intros H. apply digits_group_consumes in H.
  apply starts_with_length in E. simpl in E. lia.
Qed.

Lemma role_pattern_consumes (s g r : str) :
  Re.role_pattern s = Some (g, r) -> List.length r < List.length s.
Proof.
  rewrite !role_pattern_scan.
  destruct (starts_with (lit "<@&") s) as [t|] eqn:E; [|discriminate].
  intros H. apply digits_group_consumes in H.
  apply starts_with_length in E. simpl in E. lia.
Qed.

Lemma user_pattern_head (s g r : str) :
  Re.user_pattern s = Some (g, r) -> exists s', s = Marker.lt :: s'.
Proof.
  rewrite !user_pattern_scan.
  destruct (starts_with (lit "<@") s) as [t|] eqn:E; [|discriminate].
  apply starts_with_spec in E. subst. intros _. now eexists.
Qed.

Lemma channel_pattern_head (s g r : str) :
  Re.channel_pattern s = Some (g, r) -> exists s', s = Marker.lt :: s'.
Proof.
  rewrite !channel_pattern_scan.
  destruct (starts_with (lit "<#") s) as [t|] eqn:E; [|discriminate].
  apply starts_with_spec in E. subst. intros _. now eexists.
Qed.

Lemma role_pattern_head (s g r : str) :
  Re.role_pattern s = Some (g, r) -> exists s', s = Marker.lt :: s'.
Proof.
  rewrite !role_pattern_scan.
  destruct (starts_with (lit "<@&") s) as [t|] eqn:E; [|discriminate].
  apply starts_with_spec in E. subst. intros _. now eexists.
Qed.

Lemma user_pattern_local (s x : str) :
  s <> [] -> (x = [] \/ exists x', x = Marker.lt :: x') ->
  Re.user_pattern (s ++ x)
  = option_map (fun gr => (fst gr, snd gr ++ x)) (Re.user_pattern s).
Proof.
  intros Hs Hx. rewrite !user_pattern_scan.
  change (lit "<@") with (Marker.lt :: lit "@").
  rewrite starts_with_lt_before; trivial; [|not_in_literal].
  destruct (starts_with (Marker.lt :: lit "@") s) as [t|]; [|reflexivity].
  simpl. rewrite optional_before; trivial; [|discriminate].
  now apply digits_group_before.
Qed.

Lemma channel_pattern_local (s x : str) :
  s <> [] -> (x = [] \/ exists x', x = Marker.lt :: x') ->
  Re.channel_pattern (s ++ x)
  = option_map (fun gr => (fst gr, snd gr ++ x)) (Re.channel_pattern s).
Proof.
  intros Hs Hx. rewrite !channel_pattern_scan.
  change (lit "<#") with (Marker.lt :: lit "#").
  rewrite starts_with_lt_before; trivial; [|not_in_literal].
  destruct (starts_with (Marker.lt :: lit "#") s) as [t|]; [|reflexivity].
  simpl. now apply digits_group_before.
Qed.

Lemma role_pattern_local (s x : str) :
  s <> [] -> (x = [] \/ exists x', x = Marker.lt :: x') ->
  Re.role_pattern (s ++ x)
  = option_map (fun gr => (fst gr, snd gr ++ x)) (Re.role_pattern s).
Proof.
  intros Hs Hx. rewrite !role_pattern_scan.
  change (lit "<@&") with (Marker.lt :: lit "@&").
  rewrite starts_with_lt_before; trivial; [|not_in_literal].
  destruct (starts_with (Marker.lt :: lit "@&") s) as [t|]; [|reflexivity].
  simpl. now apply digits_group_before.
Qed.

Lemma digits_without (c : char) (d : str) :
  is_digit c = false -> forallb is_digit d = true -> ~ In c d.
Proof.
  intros Hc Hd H. rewrite forallb_forall in Hd. apply Hd in H. congruence.
Qed.

(** What each pattern does at each kind of marker. *)

Lemma user_pattern_at_user (d post : str) :
  Marker.is_id d -> Re.user_pattern (Marker.user d ++ post) = Some (d, post).
Proof.
  intros Hd. rewrite user_pattern_scan. unfold Marker.user.
  rewrite <- !app_assoc, starts_with_app.
  replace (Re.optional 33%N (d ++ lit ">" ++ post)) with (d ++ lit ">" ++ post).
  - now apply digits_group_id.
  - destruct Hd as [Hne Hd]. destruct d as [|c d]; [now elim Hne|].
    cbn [app Re.optional]. simpl in Hd. apply andb_prop in Hd.
    destruct (N.eqb_spec c 33%N) as [->|]; [|reflexivity].
    destruct Hd. discriminate.
Qed.

Lemma user_pattern_at_nick (d post : str) :
  Marker.is_id d -> Re.user_pattern (Marker.nick d ++ post) = Some (d, post).
Proof.
  intros Hd. rewrite user_pattern_scan. unfold Marker.nick.
  change (lit "<@!") with (lit "<@" ++ lit "!").
  rewrite <- !app_assoc, starts_with_app.
  now apply digits_group_id.
Qed.

Lemma user_pattern_at_role (d post : str) :
  Re.user_pattern (Marker.role d ++ post) = None.
Proof. reflexivity. Qed.

Lemma user_pattern_at_channel (d post : str) :
  Re.user_pattern (Marker.channel d ++ post) = None.
Proof. reflexivity. Qed.

Lemma channel_pattern_at_channel (d post : str) :
  Marker.is_id d ->
  Re.channel_pattern (Marker.channel d ++ post) = Some (d, post).
Proof.
  intros Hd. rewrite channel_pattern_scan. unfold Marker.channel.
  rewrite <- !app_assoc, starts_with_app.
  now apply digits_group_id.
Qed.

Lemma channel_pattern_at_user (d post : str) :
  Re.channel_pattern (Marker.user d ++ post) = None.
Proof. reflexivity. Qed.

Lemma channel_pattern_at_nick (d post : str) :
  Re.channel_pattern (Marker.nick d ++ post) = None.
Proof. reflexivity. Qed.

Lemma channel_pattern_at_role (d post : str) :
  Re.channel_pattern (Marker.role d ++ post) = None.
Proof. reflexivity. Qed.

Lemma role_pattern_at_role (d post : str) :
  Marker.is_id d -> Re.role_pattern (Marker.role d ++ post) = Some (d, post).
Proof.
  intros Hd. rewrite role_pattern_scan. unfold Marker.role.
  rewrite <- !app_assoc, starts_with_app.
  now apply digits_group_id.
Qed.

Lemma role_pattern_at_user (d post : str) :
  Marker.is_id d -> Re.role_pattern (Marker.user d ++ post) = None.
Proof.
  intros [Hne Hd]. destruct d as [|c d]; [now elim Hne|].
  simpl in Hd. apply andb_prop in Hd. destruct Hd as [Hc _].
  rewrite role_pattern_scan. unfold Marker.user.
  change (lit "<@&") with (lit "<@" ++ [38%N]).
  rewrite <- !app_assoc, starts_with_app_app. cbn [app starts_with].
  destruct (N.eqb_spec 38%N c) as [<-|]; [discriminate|reflexivity].
Qed.

Lemma role_pattern_at_nick (d post : str) :
  Re.role_pattern (Marker.nick d ++ post) = None.
Proof. reflexivity. Qed.

Lemma role_pattern_at_channel (d post : str) :
  Re.role_pattern (Marker.channel d ++ post) = None.
Proof. reflexivity. Qed.

(** No text is matched at its head by two of the three patterns. *)
Lemma patterns_match_exclusively (s : str) :
  (Re.user_pattern s <> None ->
   Re.channel_pattern s = None /\ Re.role_pattern s = None) /\
  (Re.channel_pattern s <> None ->
   Re.user_pattern s = None /\ Re.role_pattern s = None) /\
  (Re.role_pattern s <> None ->
   Re.user_pattern s = None /\ Re.channel_pattern s = None).
Proof.
  assert (UC : Re.user_pattern s <> None -> Re.channel_pattern s = None).
  { rewrite user_pattern_scan, channel_pattern_scan.
    destruct (starts_with (lit "<@") s) as [t|] eqn:E; [|now intros []].
    apply starts_with_spec in E. now subst s. }
  assert (UR : Re.user_pattern s <> None -> Re.role_pattern s = None).
  { rewrite !role_pattern_scan.
    destruct (starts_with (lit "<@&") s) as [t|] eqn:E; [|reflexivity].
    apply starts_with_spec in E. subst s. now intros []. }
  assert (CR : Re.channel_pattern s <> None -> Re.role_pattern s = None).
  { rewrite channel_pattern_scan, role_pattern_scan.
    destruct (starts_with (lit "<#") s) as [t|] eqn:E; [|now intros []].
    apply starts_with_spec in E. now subst s. }
  repeat split; auto.
  - destruct (Re.user_pattern s) eqn:E; [|reflexivity].
    rewrite UC in H by discriminate. now elim H.
  - destruct (Re.user_pattern s) eqn:E; [|reflexivity].
    rewrite UR in H by discriminate. now elim H.
  - destruct (Re.channel_pattern s) eqn:E; [|reflexivity].
    rewrite CR in H by discriminate. now elim H.
Qed.

Lemma marker_body_without_lt (q d : str) :
  ~ In Marker.lt q -> forallb is_digit d = true ->
  ~ In Marker.lt (q ++ d ++ lit ">").
Proof.
  intros Hq Hd H. rewrite !in_app_iff in H. destruct H as [H|[H|H]].
  - now apply Hq.
  - now apply (@digits_without Marker.lt d).
  - simpl in H. destruct H as [H|[]]. discriminate.
Qed.

Ltac around_marker q d :=
  first
    [ eapply findall_token_matched;
      [ eauto using user_pattern_consumes, channel_pattern_consumes,
          role_pattern_consumes
      | eauto using user_pattern_local, channel_pattern_local,
          role_pattern_local
      | now eexists
      | auto using user_pattern_at_user, user_pattern_at_nick,
          channel_pattern_at_channel, role_pattern_at_role ]
    | apply findall_token_unmatched with (body := q ++ d ++ lit ">");
      [ eauto using user_pattern_consumes, channel_pattern_consumes,
          role_pattern_consumes
      | eauto using user_pattern_head, channel_pattern_head,
          role_pattern_head
      | eauto using user_pattern_local, channel_pattern_local,
          role_pattern_local
      | apply marker_body_without_lt; [not_in_literal | tauto]
      | first [ reflexivity
              | match goal with
                | H : Marker.is_id _ |- _ => exact (role_pattern_at_user _ H)
                end ] ] ].

(** What the three scans find around one marker. *)

Lemma findall_around_role (pre d post : str) :
  Marker.is_id d ->
  Re.findall Re.user_pattern (pre ++ Marker.role d ++ post)
  = Re.findall Re.user_pattern pre ++ Re.findall Re.user_pattern post /\
  Re.findall Re.channel_pattern (pre ++ Marker.role d ++ post)
  = Re.findall Re.channel_pattern pre ++ Re.findall Re.channel_pattern post /\
  Re.findall Re.role_pattern (pre ++ Marker.role d ++ post)
  = Re.findall Re.role_pattern pre ++ d :: Re.findall Re.role_pattern post.
Proof.
  intros Hd. pose proof Hd as [_ Hd'].
  repeat apply conj; around_marker (lit "@&") d.
Qed.

Lemma findall_around_channel (pre d post : str) :
  Marker.is_id d ->
  Re.findall Re.user_pattern (pre ++ Marker.channel d ++ post)
  = Re.findall Re.user_pattern pre ++ Re.findall Re.user_pattern post /\
  Re.findall Re.channel_pattern (pre ++ Marker.channel d ++ post)
  = Re.findall Re.channel_pattern pre
    ++ d :: Re.findall Re.channel_pattern post /\
  Re.findall Re.role_pattern (pre ++ Marker.channel d ++ post)
  = Re.findall Re.role_pattern pre ++ Re.findall Re.role_pattern post.
Proof.
  intros Hd. pose proof Hd as [_ Hd'].
  repeat apply conj; around_marker (lit "#") d.
Qed.

Lemma findall_around_user (pre d post : str) :
  Marker.is_id d ->
  Re.findall Re.user_pattern (pre ++ Marker.user d ++ post)
  = Re.findall Re.user_pattern pre ++ d :: Re.findall Re.user_pattern post /\
  Re.findall Re.channel_pattern (pre ++ Marker.user d ++ post)
  = Re.findall Re.channel_pattern pre ++ Re.findall Re.channel_pattern post /\
  Re.findall Re.role_pattern (pre ++ Marker.user d ++ post)
  = Re.findall Re.role_pattern pre ++ Re.findall Re.role_pattern post.
Proof.
  intros Hd. pose proof Hd as [_ Hd'].
  repeat apply conj; around_marker (lit "@") d.
Qed.

Lemma findall_around_nick (pre d post : str) :
  Marker.is_id d ->
  Re.findall Re.user_pattern (pre ++ Marker.nick d ++ post)
  = Re.findall Re.user_pattern pre ++ d :: Re.findall Re.user_pattern post /\
  Re.findall Re.channel_pattern (pre ++ Marker.nick d ++ post)
  = Re.findall Re.channel_pattern pre ++ Re.findall Re.channel_pattern post /\
  Re.findall Re.role_pattern (pre ++ Marker.nick d ++ post)
  = Re.findall Re.role_pattern pre ++ Re.findall Re.role_pattern post.
Proof.
  intros Hd. pose proof Hd as [_ Hd'].
  repeat apply conj; around_marker (lit "@!") d.
Qed.

End Patterns.

(** ** Substituting with [pattern.sub] *)

Section Substitution.

Variable alts : list str.
Variable repl : str -> str.

Lemma first_alternative_spec (s k r : str) :
  Re.first_alternative alts s = Some (k, r) -> In k alts /\ s = k ++ r.
Proof.
  induction alts as [|a l IH]; simpl; [discriminate|].
  destruct (starts_with a s) as [rest|] eqn:E.
  - intros [= <- <-]. apply starts_with_spec in E. auto.
  - intros H. destruct (IH H). auto.
Qed.

Lemma first_alternative_none (s : str) :
  Re.first_alternative alts s = None <->
  forall k, In k alts -> starts_with k s = None.
Proof.
  induction alts as [|a l IH]; simpl.
  - split; [intros _ k [] | reflexivity].
  - destruct (starts_with a s) as [rest|] eqn:E.
    + split; [discriminate|]. intros H. rewrite (H a) in E; [discriminate|].
      now left.
    + rewrite IH. split.
      * intros H k [<-|Hk]; auto.
      * intros H k Hk. apply H. now right.
Qed.

Lemma sub_from_fuel (fuel1 fuel2 : nat) (s : str) :
  List.length s < fuel1 -> List.length s < fuel2 ->
  Re.sub_from fuel1 alts repl s = Re.sub_from fuel2 alts repl s.
Proof.
  revert fuel2 s.
  induction fuel1 as [|fuel1 IH]; intros fuel2 s H1 H2; [lia|].
  destruct fuel2 as [|fuel2]; [lia|]. simpl.
  destruct (Re.first_alternative alts s) as [[k r]|] eqn:E.
  - apply first_alternative_spec in E. destruct E as [_ ->].
    destruct k as [|c k].
    + destruct r as [|c r]; [reflexivity|]. cbn [app]. simpl in H1, H2.
      do 2 f_equal. apply IH; lia.
    + f_equal. rewrite length_app in H1, H2. simpl in H1, H2.
      apply IH; lia.
  - destruct s as [|c s]; [reflexivity|]. simpl in H1, H2.
    f_equal. apply IH; lia.
Qed.

(** One step of the substitution. *)
Lemma sub_step (s : str) :
  Re.sub alts repl s
  = match Re.first_alternative alts s with
    | Some ([], _) =>
        match s with
        | [] => repl []
        | c :: s' => repl [] ++ c :: Re.sub alts repl s'
        end
    | Some (k, rest) => repl k ++ Re.sub alts repl rest
    | None =>
        match s with
        | [] => []
        | c :: s' => c :: Re.sub alts repl s'
        end
    end.
Proof.
  unfold Re.sub at 1. simpl.
  destruct (Re.first_alternative alts s) as [[k r]|] eqn:E.
  - apply first_alternative_spec in E. destruct E as [_ ->].
    destruct k as [|c k].
    + destruct r as [|c r]; reflexivity.
    + f_equal. apply sub_from_fuel; rewrite ?length_app; simpl; lia.
  - destruct s as [|c s]; reflexivity.
Qed.

(** A match of a non-empty alternative is replaced and the scan resumes
    behind it. *)
Lemma sub_match (k rest : str) :
  k <> [] ->
  Re.first_alternative alts (k ++ rest) = Some (k, rest) ->
  Re.sub alts repl (k ++ rest) = repl k ++ Re.sub alts repl rest.
Proof.
  intros Hk H. rewrite sub_step, H. destruct k; [now elim Hk|reflexivity].
Qed.

End Substitution.

(** The empty pattern with the empty replacement changes nothing. *)
Lemma sub_empty_pattern (repl : str -> str) (s : str) :
  repl [] = [] -> Re.sub (Re.alternation []) repl s = s.
Proof.
  intros Hr. induction s as [|c s IH]; rewrite sub_step;
    cbn [Re.alternation Re.first_alternative starts_with].
  - exact Hr.
  - rewrite Hr. cbn [app]. f_equal. exact IH.
Qed.

(** ** Substituting bracketed markers *)

Lemma bracketed_body_without_lt (body : str) :
  (forall c, In c body -> c <> Marker.lt /\ c <> Marker.gt) ->
  ~ In Marker.lt (body ++ [Marker.gt]).
Proof.
  intros Hb H. apply in_app_iff in H. destruct H as [H|[H|[]]].
  - now apply Hb in H.
  - discriminate.
Qed.

(** Two bracketed strings that start at the same place are the same. *)
Lemma bracketed_prefix_eq (k m r post : str) :
  Marker.bracketed k -> Marker.bracketed m ->
  k ++ r = m ++ post -> k = m.
Proof.
  intros (kb & -> & Hk) (mb & -> & Hm) H.
  simpl in H. injection H as H. rewrite <- !app_assoc in H. simpl in H.
  f_equal. f_equal.
  revert mb Hm H. induction kb as [|c kb IH]; intros mb Hm H.
  - destruct mb as [|c mb]; [reflexivity|]. simpl in H. injection H as <- _.
    destruct (Hm Marker.gt); [now left | congruence].
  - destruct mb as [|c' mb]; simpl in H; injection H as H1 H2.
    + subst c. destruct (Hk Marker.gt); [now left | congruence].
    + subst c'. f_equal. apply IH; trivial.
      * intros a Ha. apply Hk. now right.
      * intros a Ha. apply Hm. now right.
Qed.

Section KeysWithHead.

Variable alts : list str.
Variable repl : str -> str.

(** Every alternative starts with [<]. *)
Hypothesis alts_head :
  forall k, In k alts -> exists body, k = Marker.lt :: body.

(** No alternative matches where the text does not start with [<]. *)
Lemma first_alternative_head (s k r : str) :
  Re.first_alternative alts s = Some (k, r) ->
  exists body s', k = Marker.lt :: body /\ s = Marker.lt :: s'.
Proof.
  intros H. apply first_alternative_spec in H. destruct H as [Hk ->].
  destruct (alts_head _ Hk) as (body & ->). now repeat eexists.
Qed.

Lemma sub_nil : Re.sub alts repl [] = [].
Proof.
  rewrite sub_step.
  destruct (Re.first_alternative alts []) as [[k r]|] eqn:E; [|reflexivity].
  apply first_alternative_head in E.
  destruct E as (? & ? & _ & ?). discriminate.
Qed.

Lemma sub_cons (c : char) (s : str) :
  Re.sub alts repl (c :: s)
  = match Re.first_alternative alts (c :: s) with
    | Some (k, rest) => repl k ++ Re.sub alts repl rest
    | None => c :: Re.sub alts repl s
    end.
Proof.
  rewrite sub_step.
  destruct (Re.first_alternative alts (c :: s)) as [[k r]|] eqn:E;
    [|reflexivity].
  apply first_alternative_head in E.
  destruct E as (? & ? & -> & _). reflexivity.
Qed.

(** A text without [<] is copied. *)
Lemma sub_skip (w s : str) :
  ~ In Marker.lt w ->
  Re.sub alts repl (w ++ s) = w ++ Re.sub alts repl s.
Proof.
  induction w as [|c w IH]; intros Hw; [reflexivity|].
  change ((c :: w) ++ s) with (c :: (w ++ s)).
  rewrite sub_cons.
  destruct (Re.first_alternative alts (c :: w ++ s)) as [[k r]|] eqn:E.
  - apply first_alternative_head in E.
    destruct E as (? & ? & _ & [= -> _]). elim Hw. now left.
  - simpl. f_equal. apply IH. intros H. apply Hw. now right.
Qed.

End KeysWithHead.

Section BracketedKeys.

Variable alts : list str.
Variable repl : str -> str.

Hypothesis alts_bracketed : forall k, In k alts -> Marker.bracketed k.

Lemma bracketed_heads (k : str) :
  In k alts -> exists body, k = Marker.lt :: body.
Proof.
  intros Hk. destruct (alts_bracketed _ Hk) as (body & -> & _).
  now eexists.
Qed.

Lemma starts_with_bracketed_local (k s x : str) :
  Marker.bracketed k -> s <> [] ->
  (x = [] \/ exists x', x = Marker.lt :: x') ->
  starts_with k (s ++ x) = option_map (fun r => r ++ x) (starts_with k s).
Proof.
  intros (body & -> & Hb) Hs Hx.
  apply starts_with_lt_before; trivial.
  now apply bracketed_body_without_lt.
Qed.

Lemma first_alternative_local (s x : str) :
  s <> [] -> (x = [] \/ exists x', x = Marker.lt :: x') ->
  Re.first_alternative alts (s ++ x)
  = option_map (fun kr => (fst kr, snd kr ++ x))
      (Re.first_alternative alts s).
Proof.
  intros Hs Hx. clear repl.
  induction alts as [|a l IH]; [reflexivity|]. simpl.
  rewrite starts_with_bracketed_local; trivial;
    [|apply alts_bracketed; now left].
  destruct (starts_with a s); [reflexivity|].
  apply IH. intros k Hk. apply alts_bracketed. now right.
Qed.

(** With bracketed alternatives at most one of them matches at a place, so
    the order in which the dict lists its keys does not matter. *)
Lemma first_alternative_unique (k s r : str) :
  In k alts -> starts_with k s = Some r ->
  Re.first_alternative alts s = Some (k, r).
Proof.
  intros Hk Hs.
  destruct (Re.first_alternative alts s) as [[k' r']|] eqn:E.
  - apply first_alternative_spec in E. destruct E as [Hk' E].
    apply starts_with_spec in Hs. subst s.
    pose proof (@bracketed_prefix_eq k k' r r' (alts_bracketed _ Hk)
                  (alts_bracketed _ Hk') E) as <-.
    apply app_inv_head in E. now subst r'.
  - rewrite first_alternative_none in E. rewrite (E _ Hk) in Hs.
    discriminate.
Qed.

(** The substitution of a text splits at every [<]. *)
Lemma sub_app (s x : str) :
  (x = [] \/ exists x', x = Marker.lt :: x') ->
  Re.sub alts repl (s ++ x) = Re.sub alts repl s ++ Re.sub alts repl x.
Proof.
  intros Hx.
  remember (List.length s) as n eqn:Hn. revert s Hn.
  induction n as [n IH] using lt_wf_ind. intros s Hn.
  destruct s as [|c s]; [now rewrite (@sub_nil alts repl bracketed_heads)|].
  change ((c :: s) ++ x) with (c :: (s ++ x)).
  rewrite !(@sub_cons alts repl bracketed_heads).
  change (c :: (s ++ x)) with ((c :: s) ++ x).
  rewrite first_alternative_local by (trivial; discriminate).
  destruct (Re.first_alternative alts (c :: s)) as [[k r]|] eqn:E; simpl.
  - apply first_alternative_spec in E. destruct E as [Hk E].
    destruct (alts_bracketed _ Hk) as (body & -> & _).
    rewrite <- app_assoc. f_equal.
    apply (IH (List.length r)); trivial.
    apply (f_equal (@List.length _)) in E. rewrite length_app in E.
    simpl in E, Hn. lia.
  - f_equal. apply (IH (List.length s)); simpl in Hn; lia.
Qed.

(** A bracketed marker that is not among the alternatives stays where it
    is, and the text on either side is substituted on its own. *)
Lemma sub_token_unmatched (pre marker post : str) :
  Marker.bracketed marker -> ~ In marker alts ->
  Re.sub alts repl (pre ++ marker ++ post)
  = Re.sub alts repl pre ++ marker ++ Re.sub alts repl post.
Proof.
  intros Hm Hnot.
  assert (Hnone : Re.first_alternative alts (marker ++ post) = None).
  { destruct (Re.first_alternative alts (marker ++ post)) as [[k r]|] eqn:E;
      [|reflexivity].
    apply first_alternative_spec in E. destruct E as [Hk E].
    elim Hnot. symmetry in E.
    now rewrite <- (@bracketed_prefix_eq k marker r post (alts_bracketed _ Hk) Hm E). }
  destruct Hm as (body & -> & Hb).
  rewrite sub_app by (right; now eexists). f_equal.
  change ((Marker.lt :: body ++ [Marker.gt]) ++ post)
    with (Marker.lt :: ((body ++ [Marker.gt]) ++ post)) in *.
  rewrite (@sub_cons alts repl bracketed_heads), Hnone.
  change ((Marker.lt :: body ++ [Marker.gt]) ++ Re.sub alts repl post)
    with (Marker.lt :: ((body ++ [Marker.gt]) ++ Re.sub alts repl post)).
  f_equal. apply (@sub_skip alts repl bracketed_heads).
  now apply bracketed_body_without_lt.
Qed.

End BracketedKeys.

Lemma first_alternative_permutation (alts alts' : list str) (s : str) :
  (forall k, In k alts -> Marker.bracketed k) ->
  Permutation alts alts' ->
  Re.first_alternative alts s = Re.first_alternative alts' s.
Proof.
  intros Hb Hp.
  assert (Hb' : forall k, In k alts' -> Marker.bracketed k).
  { intros k Hk. apply Hb. apply Permutation_in with (l := alts'); trivial.
    now apply Permutation_sym. }
  destruct (Re.first_alternative alts s) as [[k r]|] eqn:E.
  - apply first_alternative_spec in E. destruct E as [Hk ->]. symmetry.
    apply first_alternative_unique; trivial.
    + now apply Permutation_in with (l := alts).
    + apply starts_with_app.
  - symmetry. rewrite first_alternative_none in *. intros k Hk. apply E.
    apply Permutation_in with (l := alts'); trivial.
    now apply Permutation_sym.
Qed.

Lemma sub_permutation (alts alts' : list str) (repl : str -> str) (s : str) :
  (forall k, In k alts -> Marker.bracketed k) ->
  Permutation alts alts' ->
  Re.sub alts repl s = Re.sub alts' repl s.
Proof.
  intros Hb Hp.
  remember (List.length s) as n eqn:Hn. revert s Hn.
  induction n as [n IH] using lt_wf_ind. intros s Hn.
  rewrite (sub_step alts), (sub_step alts').
  rewrite <- (first_alternative_permutation s Hb Hp).
  destruct (Re.first_alternative alts s) as [[k r]|] eqn:E.
  - apply first_alternative_spec in E. destruct E as [Hk ->].
    destruct (Hb _ Hk) as (body & -> & _). f_equal.
    apply (IH (List.length r)); trivial.
    rewrite length_app in Hn. simpl in Hn. lia.
  - destruct s as [|c s]; [reflexivity|]. f_equal.
    apply (IH (List.length s)); trivial. simpl in Hn. lia.
Qed.

(** The same for the pattern that [clean_content] compiles from the keys of
    its dict: with no key at all the pattern is empty and nothing changes. *)
Lemma sub_keeps_unmapped_marker (keys : list str) (repl : str -> str)
    (pre marker post : str) :
  (forall k, In k keys -> Marker.bracketed k) ->
  repl [] = [] ->
  Marker.bracketed marker -> ~ In marker keys ->
  Re.sub (Re.alternation keys) repl (pre ++ marker ++ post)
  = Re.sub (Re.alternation keys) repl pre ++ marker
    ++ Re.sub (Re.alternation keys) repl post.
Proof.
  intros Hk Hr Hm Hnot. destruct keys as [|k keys].
  - now rewrite !sub_empty_pattern.
  - now apply sub_token_unmatched.
Qed.

(** ** The keys of a dict *)

Section DictKeys.

Lemma keys_set (k k' v : str) (d : Dict.t) :
  In k (Dict.keys (Dict.set k' v d)) -> k = k' \/ In k (Dict.keys d).
Proof.
  induction d as [|[a w] d IH]; simpl.
  - intros [<-|[]]. now left.
  - destruct (Str.eqb a k') eqn:E; simpl.
    + apply eqb_eq in E. subst a. intros [<-|H]; auto.
    + intros [<-|H]; auto. destruct (IH H); auto.
Qed.

Lemma keys_fold_set (A : Type) (key value : A -> str) (xs : list A)
    (d : Dict.t) (k : str) :
  In k (Dict.keys
          (fold_left (fun d x => Dict.set (key x) (value x) d) xs d)) ->
  In k (Dict.keys d) \/ exists x, In x xs /\ k = key x.
Proof.
  revert d. induction xs as [|x xs IH]; intros d; simpl; [now left|].
  intros H. apply IH in H. destruct H as [H|(y & Hy & ->)].
  - apply keys_set in H. destruct H as [->|H]; [right|now left].
    exists x. auto.
  - right. exists y. auto.
Qed.

Lemma keys_comprehension (A : Type) (key value : A -> str) (xs : list A)
    (k : str) :
  In k (Dict.keys (Dict.comprehension key value xs)) ->
  exists x, In x xs /\ k = key x.
Proof.
  intros H. apply keys_fold_set in H. now destruct H as [[]|H].
Qed.

Lemma keys_update (d other : Dict.t) (k : str) :
  In k (Dict.keys (Dict.update d other)) ->
  In k (Dict.keys d) \/ In k (Dict.keys other).
Proof.
  intros H. apply keys_fold_set in H. destruct H as [H|([a v] & Hx & ->)].
  - now left.
  - right. now apply (in_map fst) in Hx.
Qed.

Lemma keys_set_new (k v : str) (d : Dict.t) :
  In k (Dict.keys (Dict.set k v d)).
Proof.
  induction d as [|[a w] d IH]; simpl; [now left|].
  destruct (Str.eqb a k); simpl; auto.
Qed.

Lemma keys_set_old (k k' v : str) (d : Dict.t) :
  In k' (Dict.keys d) -> In k' (Dict.keys (Dict.set k v d)).
Proof.
  induction d as [|[a w] d IH]; simpl; [intros []|].
  destruct (Str.eqb a k) eqn:E; simpl.
  - apply eqb_eq in E. subst a. intros [<-|H]; auto.
  - intros [<-|H]; auto.
Qed.

Lemma keys_fold_old (A : Type) (key value : A -> str) (xs : list A)
    (d : Dict.t) (k : str) :
  In k (Dict.keys d) ->
  In k (Dict.keys
          (fold_left (fun d x => Dict.set (key x) (value x) d) xs d)).
Proof.
  revert d. induction xs as [|x xs IH]; intros d H; simpl; [exact H|].
  apply IH. now apply keys_set_old.
Qed.

Lemma get_set (k k' v default : str) (d : Dict.t) :
  Dict.get (Dict.set k v d) k' default
  = if Str.eqb k k' then v else Dict.get d k' default.
Proof.
  induction d as [|[a w] d IH]; simpl; [reflexivity|].
  destruct (Str.eqb a k) eqn:E; simpl.
  - apply eqb_eq in E. subst a. now destruct (Str.eqb k k').
  - rewrite IH. destruct (Str.eqb a k') eqn:E1; [|reflexivity].
    destruct (Str.eqb k k') eqn:E2; [|reflexivity].
    apply eqb_eq in E1, E2. subst. rewrite (proj2 (eqb_eq k' k') eq_refl) in E.
    discriminate.
Qed.

(** Storing under other keys does not change what [get] gives for a key. *)
Lemma get_fold_other (A : Type) (key value : A -> str) (xs : list A)
    (d : Dict.t) (k default : str) :
  (forall x, In x xs -> key x <> k) ->
  Dict.get (fold_left (fun d x => Dict.set (key x) (value x) d) xs d)
    k default
  = Dict.get d k default.
Proof.
  revert d. induction xs as [|x xs IH]; intros d H; simpl; [reflexivity|].
  rewrite IH by (intros y Hy; apply H; now right).
  rewrite get_set.
  destruct (Str.eqb (key x) k) eqn:E; [|reflexivity].
  apply eqb_eq in E. elim (H x); [now left|exact E].
Qed.

(** The default is what [get] gives for a key that is not there. *)
Lemma get_missing (d : Dict.t) (k default : str) :
  ~ In k (Dict.keys d) -> Dict.get d k default = default.
Proof.
  induction d as [|[a v] d IH]; simpl; [reflexivity|]. intros H.
  destruct (Str.eqb a k) eqn:E.
  - apply eqb_eq in E. elim H. now left.
  - apply IH. intros H'. apply H. now right.
Qed.

End DictKeys.

(** ** The second pass of [clean_content] *)

Section Broadcasts.

Lemma broadcast_at_not_at (c : char) (s : str) :
  c <> 64%N -> Message.broadcast_at (c :: s) = false.
Proof.
  intros Hc. unfold Message.broadcast_at.
  change (lit "@everyone") with (64%N :: lit "everyone").
  change (lit "@here") with (64%N :: lit "here").
  cbn [starts_with].
  destruct (N.eqb_spec 64%N c) as [<-|_]; [now elim Hc|reflexivity].
Qed.

(** The substitution with the two broadcast tokens does what the
    description says. *)
Lemma defuse_broadcasts_spec (s : str) :
  Message.defuse_broadcasts s = Message.zwsp_after_broadcast_at s.
Proof.
  unfold Message.defuse_broadcasts.
  remember (List.length s) as n eqn:Hn. revert s Hn.
  induction n as [n IH] using lt_wf_ind. intros s Hn.
  rewrite sub_step.
  change (Re.alternation (Dict.keys Message.broadcast_transformations))
    with [lit "@everyone"; lit "@here"] in *.
  cbn [Re.first_alternative].
  destruct (starts_with (lit "@everyone") s) as [rest|] eqn:E1.
  { apply starts_with_spec in E1. subst s.
    rewrite (IH (List.length rest))
      by (try reflexivity; subst n; rewrite length_app; simpl; lia).
    reflexivity. }
  destruct (starts_with (lit "@here") s) as [rest|] eqn:E2.
  { apply starts_with_spec in E2. subst s.
    rewrite (IH (List.length rest))
      by (try reflexivity; subst n; rewrite length_app; simpl; lia).
    reflexivity. }
  destruct s as [|c s]; [reflexivity|].
  rewrite (IH (List.length s)) by (try reflexivity; subst n; simpl; lia).
  cbn [Message.zwsp_after_broadcast_at]. unfold Message.broadcast_at.
  now rewrite E1, E2.
Qed.

Lemma broadcast_at_token (token s r : str) :
  token = lit "@everyone" \/ token = lit "@here" ->
  starts_with token s = Some r ->
  Message.broadcast_at s = true.
Proof.
  unfold Message.broadcast_at. intros [->| ->] ->; [reflexivity|].
  now destruct (starts_with (lit "@everyone") s).
Qed.

Lemma zwsp_after_not_at (c : char) (s : str) :
  c <> 64%N ->
  Message.zwsp_after_broadcast_at (c :: s)
  = c :: Message.zwsp_after_broadcast_at s.
Proof.
  intros Hc. cbn [Message.zwsp_after_broadcast_at].
  now rewrite broadcast_at_not_at.
Qed.

(** A piece of the output without [@] was there in the input. *)
Lemma zwsp_after_prefix (w s r : str) :
  ~ In 64%N w ->
  starts_with w (Message.zwsp_after_broadcast_at s) = Some r ->
  exists r', starts_with w s = Some r'.
Proof.
  revert s r. induction w as [|a w IH]; intros s r Hw; [now eexists|].
  destruct s as [|c s]; [discriminate|].
  assert (Ha : a <> 64%N) by (intros ->; apply Hw; now left).
  destruct (N.eqb_spec a c) as [<-|Hne].
  - rewrite zwsp_after_not_at by exact Ha. cbn [starts_with].
    rewrite N.eqb_refl. apply IH. intros H. apply Hw. now right.
  - cbn [Message.zwsp_after_broadcast_at].
    destruct (Message.broadcast_at (c :: s)); cbn [starts_with];
      destruct (N.eqb_spec a c); try contradiction; discriminate.
Qed.

(** No broadcast token is left in the output. *)
Lemma zwsp_after_no_broadcast (token : str) (s : str) :
  token = lit "@everyone" \/ token = lit "@here" ->
  occurs token (Message.zwsp_after_broadcast_at s) = false.
Proof.
  intros Ht.
  assert (Hshape : exists w, token = 64%N :: w /\ ~ In 64%N w /\
                             w <> [] /\ ~ In Message.zwsp w).
  { destruct Ht as [->| ->]; eexists; (split; [reflexivity|]);
      (split; [not_in_literal|]); (split; [discriminate|not_in_literal]). }
  destruct Hshape as (w & -> & Hw & Hne & Hz).
  induction s as [|c s IH]; [reflexivity|].
  cbn [Message.zwsp_after_broadcast_at].
  destruct (Message.broadcast_at (c :: s)) eqn:B.
  - rewrite occurs_cons. cbn [starts_with].
    destruct w as [|a w]; [now elim Hne|].
    assert (Ha : N.eqb a Message.zwsp = false).
    { apply N.eqb_neq. intros ->. apply Hz. now left. }
    cbn [starts_with]. rewrite Ha.
    replace (if N.eqb 64%N c then None else None) with (@None str)
      by now destruct (N.eqb 64%N c).
    rewrite occurs_cons. cbn [starts_with]. exact IH.
  - rewrite occurs_cons.
    destruct (starts_with (64%N :: w) (c :: _)) as [r|] eqn:E; [|exact IH].
    exfalso. cbn [starts_with] in E.
    destruct (N.eqb_spec 64%N c) as [<-|]; [|discriminate].
    apply zwsp_after_prefix in E; trivial. destruct E as [r' E].
    apply (eq_true_false_abs (Message.broadcast_at (64%N :: s))); trivial.
    apply (@broadcast_at_token (64%N :: w) (64%N :: s) r'); trivial.
Qed.

Lemma broadcast_at_before (s x : str) :
  (x = [] \/ exists x', x = Marker.lt :: x') ->
  s <> [] ->
  Message.broadcast_at (s ++ x) = Message.broadcast_at s.
Proof.
  intros Hx Hs. unfold Message.broadcast_at.
  rewrite !(@starts_with_before _ s x Marker.lt); trivial;
    try not_in_literal.
  now destruct (starts_with (lit "@everyone") s),
               (starts_with (lit "@here") s).
Qed.

(** The second pass splits at every [<]. *)
Lemma zwsp_after_app (s x : str) :
  (x = [] \/ exists x', x = Marker.lt :: x') ->
  Message.zwsp_after_broadcast_at (s ++ x)
  = Message.zwsp_after_broadcast_at s ++ Message.zwsp_after_broadcast_at x.
Proof.
  intros Hx. induction s as [|c s IH]; [reflexivity|].
  change ((c :: s) ++ x) with (c :: (s ++ x)).
  cbn [Message.zwsp_after_broadcast_at].
  change (c :: (s ++ x)) with ((c :: s) ++ x).
  rewrite broadcast_at_before by (trivial; discriminate).
  destruct (Message.broadcast_at (c :: s)); simpl; now rewrite IH.
Qed.

Lemma zwsp_after_skip (w s : str) :
  ~ In 64%N w ->
  Message.zwsp_after_broadcast_at (w ++ s)
  = w ++ Message.zwsp_after_broadcast_at s.
Proof.
  induction w as [|c w IH]; intros Hw; [reflexivity|].
  change ((c :: w) ++ s) with (c :: (w ++ s)).
  rewrite zwsp_after_not_at by (intros ->; apply Hw; now left).
  simpl. f_equal. apply IH. intros H. apply Hw. now right.
Qed.

(** An [@] that is followed by neither [e] nor [h] begins no broadcast
    token. *)
Lemma zwsp_after_at_other (y : char) (s : str) :
  y <> 101%N -> y <> 104%N ->
  Message.zwsp_after_broadcast_at (64%N :: y :: s)
  = 64%N :: Message.zwsp_after_broadcast_at (y :: s).
Proof.
  intros He Hh. cbn [Message.zwsp_after_broadcast_at].
  replace (Message.broadcast_at (64%N :: y :: s)) with false; [reflexivity|].
  unfold Message.broadcast_at.
  change (lit "@everyone") with (64%N :: 101%N :: lit "veryone").
  change (lit "@here") with (64%N :: 104%N :: lit "ere").
  cbn [starts_with]. rewrite N.eqb_refl.
  destruct (N.eqb_spec 101%N y) as [<-|_]; [now elim He|].
  destruct (N.eqb_spec 104%N y) as [<-|_]; [now elim Hh|reflexivity].
Qed.

Lemma digit_is_plain (c : char) :
  is_digit c = true -> c <> 64%N /\ c <> 101%N /\ c <> 104%N.
Proof.
  unfold is_digit. rewrite andb_true_iff, !N.leb_le. intros [_ H].
  repeat split; intros ->; lia.
Qed.

Lemma id_without_at (d : str) :
  forallb is_digit d = true -> ~ In 64%N (d ++ lit ">").
Proof.
  intros Hd H. apply in_app_iff in H. destruct H as [H|H].
  - now apply (@digits_without 64%N d).
  - revert H. not_in_literal.
Qed.

(** The second pass leaves a mention marker as it is. *)
Lemma zwsp_after_marker (m post : str) :
  Marker.is_marker m ->
  Message.zwsp_after_broadcast_at (m ++ post)
  = m ++ Message.zwsp_after_broadcast_at post.
Proof.
  intros (d & [Hne Hd] & Hm).
  destruct d as [|y d]; [now elim Hne|].
  pose proof Hd as Hd'. simpl in Hd'. apply andb_prop in Hd'.
  destruct Hd' as [Hy _]. apply digit_is_plain in Hy.
  destruct Hy as (_ & Hy1 & Hy2).
  destruct Hm as [->|[->|[->| ->]]].
  - change (Marker.user (y :: d) ++ post)
      with (60%N :: 64%N :: y :: ((d ++ lit ">") ++ post)).
    rewrite zwsp_after_not_at by discriminate.
    rewrite zwsp_after_at_other by assumption.
    change (y :: (d ++ lit ">") ++ post) with (((y :: d) ++ lit ">") ++ post).
    rewrite zwsp_after_skip by now apply id_without_at.
    reflexivity.
  - change (Marker.nick (y :: d) ++ post)
      with (60%N :: 64%N :: 33%N :: (((y :: d) ++ lit ">") ++ post)).
    rewrite zwsp_after_not_at by discriminate.
    rewrite zwsp_after_at_other by discriminate.
    rewrite zwsp_after_not_at by discriminate.
    rewrite zwsp_after_skip by now apply id_without_at.
    reflexivity.
  - change (Marker.role (y :: d) ++ post)
      with (60%N :: 64%N :: 38%N :: (((y :: d) ++ lit ">") ++ post)).
    rewrite zwsp_after_not_at by discriminate.
    rewrite zwsp_after_at_other by discriminate.
    rewrite zwsp_after_not_at by discriminate.
    rewrite zwsp_after_skip by now apply id_without_at.
    reflexivity.
  - change (Marker.channel (y :: d) ++ post)
      with (60%N :: 35%N :: (((y :: d) ++ lit ">") ++ post)).
    rewrite zwsp_after_not_at by discriminate.
    rewrite zwsp_after_not_at by discriminate.
    rewrite zwsp_after_skip by now apply id_without_at.
    reflexivity.
Qed.

Lemma marker_bracketed (m : str) : Marker.is_marker m -> Marker.bracketed m.
Proof.
  intros (d & [_ Hd] & Hm).
  assert (Hb : forall q c, ~ In Marker.lt q -> ~ In Marker.gt q ->
                           In c (q ++ d) -> c <> Marker.lt /\ c <> Marker.gt).
  { intros q c H1 H2 H. apply in_app_iff in H. destruct H as [H|H].
    - split; intros ->; auto.
    - rewrite forallb_forall in Hd. apply Hd in H.
      split; intros ->; discriminate. }
  destruct Hm as [->|[->|[->| ->]]].
  - exists (lit "@" ++ d). split; [unfold Marker.user; now rewrite <- app_assoc|].
    intros c. apply Hb; not_in_literal.
  - exists (lit "@!" ++ d). split; [unfold Marker.nick; now rewrite <- app_assoc|].
    intros c. apply Hb; not_in_literal.
  - exists (lit "@&" ++ d). split; [unfold Marker.role; now rewrite <- app_assoc|].
    intros c. apply Hb; not_in_literal.
  - exists (lit "#" ++ d). split; [unfold Marker.channel; now rewrite <- app_assoc|].
    intros c. apply Hb; not_in_literal.
Qed.

End Broadcasts.

Import Message.

Section Hydration.

Variables datetime json : Type.
Variable strptime : str -> result datetime.

Local Abbreviation Msg := (Message.t datetime json).
Local Abbreviation Data := (Message.Payload json).

(** Equalities between objects that differ by setters only. *)
Ltac by_fields :=
  intros; try reflexivity;
  match goal with s : Message.t _ _ |- _ => destruct s; reflexivity end.

(** ** The loops of [_handle_mentions] *)

(** A loop that looks each id up in [self.server] and appends what it finds
    to one of the resolved lists ends with that list extended by the
    entities found, in order. *)
Lemma for_each_append (A B : Type) (lookup : Server.t -> A -> option B)
    (getf : Msg -> list B) (setf : list B -> Msg -> Msg) :
  (forall v s, server (setf v s) = server s) ->
  (forall v s, getf (setf v s) = v) ->
  (forall v w s, setf v (setf w s) = setf v s) ->
  (forall s, setf (getf s) s = s) ->
  forall (ids : list A) (self : Msg) (srv : Server.t),
    server self = Some srv ->
    for_each
      (fun i self =>
         srv <- the_server self ;;
         match lookup srv i with
         | Some e => Ok (setf (getf self ++ [e]) self)
         | None => Ok self
         end)
      ids self
    = Ok (setf (getf self ++ resolve (lookup srv) ids) self).
Proof.
  intros Hsrv Hget Hset Hid ids.
  induction ids as [|i ids IH]; intros self srv Hs; simpl.
  - now rewrite app_nil_r, Hid.
  - unfold the_server at 1. rewrite Hs. simpl.
    destruct (lookup srv i) as [e|]; simpl.
    + rewrite (IH _ srv) by now rewrite Hsrv.
      now rewrite Hget, Hset, <- app_assoc.
    + now apply IH.
Qed.

(** ** Clearing the caches *)

Lemma cached_slots :
  cached = ["_raw_mentions"; "_clean_content"; "_raw_channel_mentions";
            "_raw_role_mentions"]%string.
Proof. reflexivity. Qed.

Lemma clear_cached (self : Msg) :
  fold_left
    (fun self attr =>
       match delattr attr self with
       | Ok self' => self'
       | Raise _ => self
       end)
    cached self
  = set__raw_mentions None
      (set__clean_content None
         (set__raw_channel_mentions None
            (set__raw_role_mentions None self))).
Proof.
  destruct self as [? ? ? ? ? ? ? ? ? ? ? ? rm ? cc rcm ? ? rrm].
  destruct rm, cc, rcm, rrm; reflexivity.
Qed.

(** ** Hydration in closed form *)

Lemma _update_steps (data : Data) (self : Msg) edited created :
  parse_time strptime (p_edited_timestamp data) = Ok edited ->
  parse_time strptime (p_timestamp data) = Ok created ->
  _update strptime data self
  = (self1 <- _handle_upgrades (p_channel_id data)
                (assigned data edited created self) ;;
     self2 <- _handle_mentions (get_default (p_mentions data) [])
                (get_default (p_mention_roles data) []) self1 ;;
     Ok (cleared self2)).
Proof.
  intros He Hc. unfold _update. rewrite He, Hc. cbn [bind].
  fold (parsed_author data). fold (assigned data edited created self).
  destruct (_handle_upgrades _ _) as [self1|e]; cbn [bind]; [|reflexivity].
  destruct (_handle_mentions _ _ _) as [self2|e]; cbn [bind]; [|reflexivity].
  now rewrite clear_cached.
Qed.

(** A failed timestamp parse is the failure of the hydration. *)
Lemma _update_parsed (data : Data) (self self' : Msg) :
  _update strptime data self = Ok self' ->
  exists edited created,
    parse_time strptime (p_edited_timestamp data) = Ok edited /\
    parse_time strptime (p_timestamp data) = Ok created.
Proof.
  unfold _update.
  destruct (parse_time strptime (p_edited_timestamp data)) as [e|];
    [|discriminate].
  destruct (parse_time strptime (p_timestamp data)) as [c|];
    [|discriminate].
  intros _. now exists e, c.
Qed.

(** A private channel, no channel at all, or an [Object] that is private or
    says nothing about it: the mention lists stay empty and there is no
    server. *)
Lemma _update_private (data : Data) (self : Msg) edited created :
  parse_time strptime (p_edited_timestamp data) = Ok edited ->
  parse_time strptime (p_timestamp data) = Ok created ->
  getattr_is_private (p_channel data) true = true ->
  _update strptime data self
  = Ok (hydrated_message data edited created None (parsed_author data)
          [] [] []).
Proof.
  intros He Hc Hp. rewrite (_update_steps _ _ He Hc).
  unfold _handle_upgrades, _handle_mentions, hydrated_message,
    upgraded_channel, assigned, cleared.
  destruct data as [? ? ? ? ? ? ? ch ? ? ? cid ? ?]; simpl in *.
  destruct ch as [[c srv|i|i [[|]|]]|]; simpl in *; try discriminate;
    try reflexivity.
  destruct cid; reflexivity.
Qed.

(** An [Object] that declares itself not private has no server to resolve
    against: the first user mention of the payload raises. *)
Lemma _update_public_object (data : Data) (self : Msg) edited created i :
  parse_time strptime (p_edited_timestamp data) = Ok edited ->
  parse_time strptime (p_timestamp data) = Ok created ->
  p_channel data = Some (Object i (Some false)) ->
  _update strptime data self
  = match get_default (p_mentions data) [] with
    | [] => Ok (hydrated_message data edited created None
                  (parsed_author data) [] [] [])
    | _ :: _ => Raise AttributeError
    end.
Proof.
  intros He Hc Hch. rewrite (_update_steps _ _ He Hc).
  unfold _handle_upgrades, _handle_mentions, hydrated_message,
    upgraded_channel, assigned, cleared.
  destruct data as [? ? ? ? ? ? ? ch ? ? ? cid ms ?]; simpl in *.
  subst ch. simpl.
  destruct (get_default ms []) as [|m ms']; reflexivity.
Qed.

(** [_handle_mentions] on a server channel. *)
Lemma _handle_mentions_server_channel (self : Msg) c srv
    (ms : list UserData.t) (rs : list str) :
  channel self = Some (TextChannel c srv) ->
  server self = Some srv ->
  _handle_mentions ms rs self
  = (r <- raw_channel_mentions
            (set_mentions
               (resolve (fun mention => Server.get_member srv (UserData.id mention)) ms)
               (set_role_mentions [] (set_channel_mentions [] self))) ;;
     Ok (set_role_mentions (resolve (Utils.get Role.id (Server.roles srv)) rs)
           (set_channel_mentions (resolve (Server.get_channel srv) (fst r))
              (snd r)))).
Proof.
  intros Hch Hsrv. unfold _handle_mentions.
  set (s0 := set_role_mentions [] (set_channel_mentions [] (set_mentions [] self))).
  assert (H0 : channel s0 = Some (TextChannel c srv)) by (rewrite <- Hch; by_fields).
  assert (S0 : server s0 = Some srv) by (rewrite <- Hsrv; by_fields).
  rewrite H0. cbn [getattr_is_private].
  rewrite (@for_each_append UserData.t Member.t
             (fun srv mention => Server.get_member srv (UserData.id mention))
             (@mentions _ _) (@set_mentions _ _)) with (srv := srv);
    [ | by_fields | by_fields | by_fields | by_fields | exact S0 ].
  cbn [bind].
  set (s1 := set_mentions _ s0).
  assert (S1 : server s1 = Some srv) by (rewrite <- S0; by_fields).
  rewrite S1.
  replace (set_mentions _ (set_role_mentions [] (set_channel_mentions [] self)))
    with s1 by (subst s1 s0; by_fields).
  destruct (raw_channel_mentions s1) as [[found s2]|e] eqn:Hr;
    cbn [bind fst snd]; [|reflexivity].
  assert (S2 : server s2 = Some srv /\ channel_mentions s2 = [] /\ role_mentions s2 = []).
  { unfold raw_channel_mentions, cached_slot_property in Hr.
    destruct (_raw_channel_mentions s1).
    - inversion Hr; subst s2. split; [exact S1|]. split; reflexivity.
    - destruct (re_findall _ _); cbn [bind] in Hr; inversion Hr; subst s2.
      split; [exact S1|]. split; reflexivity. }
  destruct S2 as (S2 & C2 & R2).
  rewrite (@for_each_append str Channel.t Server.get_channel
             (@channel_mentions _ _) (@set_channel_mentions _ _)) with (srv := srv);
    [ | by_fields | by_fields | by_fields | by_fields | exact S2 ].
  cbn [bind]. rewrite C2. cbn [app].
  set (s3 := set_channel_mentions _ s2).
  rewrite (@for_each_append str Role.t
             (fun srv role_id => Utils.get Role.id (Server.roles srv) role_id)
             (@role_mentions _ _) (@set_role_mentions _ _)) with (srv := srv);
    [ | by_fields | by_fields | by_fields | by_fields | ].
  - assert (R3 : role_mentions s3 = []) by (rewrite <- R2; reflexivity).
    rewrite R3. reflexivity.
  - rewrite <- S2. reflexivity.
Qed.

(** A server channel: the author is upgraded and the three lists are
    resolved against the roster of the channel's server. *)
Lemma _update_server_channel (data : Data) (self : Msg) edited created c srv :
  parse_time strptime (p_edited_timestamp data) = Ok edited ->
  parse_time strptime (p_timestamp data) = Ok created ->
  p_channel data = Some (TextChannel c srv) ->
  _update strptime data self
  = (found <- channel_ids_seen data self ;;
     Ok (hydrated_message data edited created (Some srv)
           (upgraded_author data srv)
           (resolve (fun mention => Server.get_member srv (UserData.id mention))
              (get_default (p_mentions data) []))
           (resolve (Server.get_channel srv) found)
           (resolve (Utils.get Role.id (Server.roles srv))
              (get_default (p_mention_roles data) [])))).
Proof.
  intros He Hc Hch. rewrite (_update_steps _ _ He Hc).
  unfold _handle_upgrades.
  replace (channel (set_server None (assigned data edited created self)))
    with (Some (TextChannel c srv)) by (now rewrite <- Hch).
  cbn [isinstance_Object attr_is_private attr_server bind negb].
  set (s1 := set_server (Some srv) _).
  replace (author s1) with (parsed_author data) by reflexivity.
  assert (Hup : match Server.get_member srv (author_id (parsed_author data)) with
                | Some found => Ok (set_author (AuthorMember found) s1)
                | None => Ok s1
                end = Ok (set_author (upgraded_author data srv) s1)).
  { unfold upgraded_author.
    destruct (Server.get_member srv _); reflexivity. }
  rewrite Hup. cbn [bind].
  rewrite (@_handle_mentions_server_channel _ c srv);
    [ | subst s1; simpl; exact Hch | reflexivity ].
  unfold raw_channel_mentions, cached_slot_property, channel_ids_seen.
  replace (_raw_channel_mentions (set_mentions _ _))
    with (_raw_channel_mentions self) by reflexivity.
  destruct (_raw_channel_mentions self) as [v|]; cbn [bind fst snd].
  - f_equal. unfold hydrated_message, upgraded_channel. rewrite Hch.
    subst s1. unfold cleared, assigned. simpl. now rewrite Hch.
  - replace (content (set_mentions _ _)) with (p_content data) by reflexivity.
    destruct (re_findall Re.channel_pattern (p_content data)) as [found|e];
      cbn [bind fst snd]; [|reflexivity].
    f_equal. unfold hydrated_message, upgraded_channel. rewrite Hch.
    subst s1. unfold cleared, assigned. simpl. now rewrite Hch.
Qed.

(** Whatever the channel, a completed hydration leaves the payload's
    fields, the upgraded channel and unset caches. *)
Lemma _update_hydrated_message (data : Data) (self self' : Msg) :
  _update strptime data self = Ok self' ->
  exists edited created srv who ms cms rms,
    self' = hydrated_message data edited created srv who ms cms rms.
Proof.
  intros H. destruct (_update_parsed _ _ H) as (edited & created & He & Hc).
  destruct (p_channel data) as [[c srv|i|i [[|]|]]|] eqn:Hch.
  - rewrite (_update_server_channel _ _ He Hc Hch) in H.
    destruct (channel_ids_seen data self); cbn [bind] in H; inversion H.
    now repeat eexists.
  - rewrite (_update_private _ _ He Hc) in H by now rewrite Hch.
    inversion H. now repeat eexists.
  - rewrite (_update_private _ _ He Hc) in H by now rewrite Hch.
    inversion H. now repeat eexists.
  - rewrite (_update_public_object _ _ He Hc Hch) in H.
    destruct (get_default (p_mentions data) []); inversion H.
    now repeat eexists.
  - rewrite (_update_private _ _ He Hc) in H by now rewrite Hch.
    inversion H. now repeat eexists.
  - rewrite (_update_private _ _ He Hc) in H by now rewrite Hch.
    inversion H. now repeat eexists.
Qed.

Lemma _update_channel (data : Data) (self self' : Msg) :
  _update strptime data self = Ok self' ->
  channel self' = upgraded_channel data.
Proof.
  intros H. apply _update_hydrated_message in H.
  destruct H as (? & ? & ? & ? & ? & ? & ? & ->). reflexivity.
Qed.

Lemma _update_caches_unset (data : Data) (self self' : Msg) :
  _update strptime data self = Ok self' ->
  _raw_mentions self' = None /\ _raw_channel_mentions self' = None /\
  _raw_role_mentions self' = None /\ _clean_content self' = None.
Proof.
  intros H. apply _update_hydrated_message in H.
  destruct H as (? & ? & ? & ? & ? & ? & ? & ->). now repeat split.
Qed.

Lemma upgraded_channel_private (data : Data) :
  getattr_is_private (upgraded_channel data) true
  = getattr_is_private (p_channel data) true.
Proof.
  unfold upgraded_channel.
  destruct (p_channel data); [reflexivity|].
  destruct (p_channel_id data); reflexivity.
Qed.

(** ** Hydration: what holds afterwards *)

(** C1.  After a hydration, a message whose channel is private, absent or
    the placeholder (its [is_private] attribute is true or missing) has
    empty [mentions], [channel_mentions] and [role_mentions], whatever the
    payload's content, [mentions] and [mention_roles] are; and for such a
    channel the hydration does complete once the timestamps parse. *)
Theorem private_channel_resolves_no_mentions (data : Data) (self : Msg) :
  (forall self',
      _update strptime data self = Ok self' ->
      getattr_is_private (channel self') true = true ->
      mentions self' = [] /\ channel_mentions self' = [] /\
      role_mentions self' = [])
  /\
  (forall edited created,
      parse_time strptime (p_edited_timestamp data) = Ok edited ->
      parse_time strptime (p_timestamp data) = Ok created ->
      getattr_is_private (p_channel data) true = true ->
      exists self',
        _update strptime data self = Ok self' /\
        getattr_is_private (channel self') true = true).
Proof.
  split.
  - intros self' H Hp.
    rewrite (_update_channel _ _ H), upgraded_channel_private in Hp.
    destruct (_update_parsed _ _ H) as (edited & created & He & Hc).
    rewrite (_update_private _ _ He Hc Hp) in H. inversion H.
    now repeat split.
  - intros edited created He Hc Hp.
    eexists. split; [exact (_update_private _ _ He Hc Hp)|].
    simpl. now rewrite upgraded_channel_private.
Qed.

(** C9.  A payload with no channel object but a [channel_id] hydrates
    without failing (the timestamps being well formed): the channel becomes
    an [Object] with that id and [is_private] set to true, and the server
    is [None].  After any hydration the server is set only if the channel
    is a server channel, and it is then that channel's server. *)
Theorem placeholder_channel_and_server (data : Data) (self : Msg) :
  (forall cid edited created,
      parse_time strptime (p_edited_timestamp data) = Ok edited ->
      parse_time strptime (p_timestamp data) = Ok created ->
      p_channel data = None ->
      p_channel_id data = Some cid ->
      exists self',
        _update strptime data self = Ok self' /\
        channel self' = Some (Object cid (Some true)) /\
        server self' = None)
  /\
  (forall self' srv,
      _update strptime data self = Ok self' ->
      server self' = Some srv ->
      exists c, channel self' = Some (TextChannel c srv))
  /\
  (forall self' c srv,
      _update strptime data self = Ok self' ->
      channel self' = Some (TextChannel c srv) ->
      server self' = Some srv).
Proof.
  split; [|split].
  - intros cid edited created He Hc Hch Hid.
    eexists. split.
    + apply (_update_private _ _ He Hc). now rewrite Hch.
    + simpl. unfold upgraded_channel. now rewrite Hch, Hid.
  - intros self' srv H Hs.
    destruct (_update_parsed _ _ H) as (edited & created & He & Hc).
    pose proof (_update_channel _ _ H) as Hch'.
    destruct (p_channel data) as [[c srv'|i|i [[|]|]]|] eqn:Hch.
    + rewrite (_update_server_channel _ _ He Hc Hch) in H.
      destruct (channel_ids_seen data self); cbn [bind] in H; inversion H.
      subst self'. simpl in Hs. inversion Hs. subst srv'.
      exists c. simpl. unfold upgraded_channel. now rewrite Hch.
    + rewrite (_update_private _ _ He Hc) in H by now rewrite Hch.
      inversion H. subst self'. discriminate.
    + rewrite (_update_private _ _ He Hc) in H by now rewrite Hch.
      inversion H. subst self'. discriminate.
    + rewrite (_update_public_object _ _ He Hc Hch) in H.
      destruct (get_default (p_mentions data) []); inversion H.
      subst self'. discriminate.
    + rewrite (_update_private _ _ He Hc) in H by now rewrite Hch.
      inversion H. subst self'. discriminate.
    + rewrite (_update_private _ _ He Hc) in H by now rewrite Hch.
      inversion H. subst self'. discriminate.
  - intros self' c srv H Hch'.
    destruct (_update_parsed _ _ H) as (edited & created & He & Hc).
    rewrite (_update_channel _ _ H) in Hch'.
    assert (Hch : p_channel data = Some (TextChannel c srv)).
    { unfold upgraded_channel in Hch'.
      destruct (p_channel data); [assumption|].
      destruct (p_channel_id data); discriminate. }
    rewrite (_update_server_channel _ _ He Hc Hch) in H.
    destruct (channel_ids_seen data self); cbn [bind] in H; inversion H.
    reflexivity.
Qed.

(** C10.  A payload without [content] hydrates (for a private, absent or
    placeholder channel, the timestamps being well formed) and leaves
    [content] at [None]; each of [raw_mentions], [raw_channel_mentions],
    [raw_role_mentions] and [clean_content] then raises, the pattern being
    applied to [None].  When [content] is a string the four properties
    return; when it is not and the slot is unset they raise. *)
Theorem missing_content_breaks_derived_properties (data : Data) (self : Msg) :
  (forall edited created,
      parse_time strptime (p_edited_timestamp data) = Ok edited ->
      parse_time strptime (p_timestamp data) = Ok created ->
      p_content data = None ->
      getattr_is_private (p_channel data) true = true ->
      exists self',
        _update strptime data self = Ok self' /\
        content self' = None /\
        raw_mentions self' = Raise TypeError /\
        raw_channel_mentions self' = Raise TypeError /\
        raw_role_mentions self' = Raise TypeError /\
        clean_content self' = Raise TypeError)
  /\
  (forall (m : Msg) c,
      content m = Some c ->
      (exists v m', raw_mentions m = Ok (v, m')) /\
      (exists v m', raw_channel_mentions m = Ok (v, m')) /\
      (exists v m', raw_role_mentions m = Ok (v, m')) /\
      (exists v m', clean_content m = Ok (v, m')))
  /\
  (forall m : Msg,
      content m = None ->
      (_raw_mentions m = None -> raw_mentions m = Raise TypeError) /\
      (_raw_channel_mentions m = None ->
       raw_channel_mentions m = Raise TypeError) /\
      (_raw_role_mentions m = None -> raw_role_mentions m = Raise TypeError) /\
      (_clean_content m = None -> clean_content m = Raise TypeError)).
Proof.
  split; [|split].
  - intros edited created He Hc Hcontent Hp.
    eexists. split; [exact (_update_private _ _ He Hc Hp)|].
    unfold raw_mentions, raw_channel_mentions, raw_role_mentions,
      clean_content, cached_slot_property, clean_content_function.
    simpl. rewrite Hcontent. now repeat split.
  - intros m c Hcontent.
    unfold raw_mentions, raw_channel_mentions, raw_role_mentions,
      clean_content, cached_slot_property, clean_content_function.
    rewrite Hcontent. cbn [re_findall re_sub bind].
    repeat split.
    + destruct (_raw_mentions m); now repeat eexists.
    + destruct (_raw_channel_mentions m); now repeat eexists.
    + destruct (_raw_role_mentions m); now repeat eexists.
    + destruct (_clean_content m); now repeat eexists.
  - intros m Hcontent.
    unfold raw_mentions, raw_channel_mentions, raw_role_mentions,
      clean_content, cached_slot_property, clean_content_function.
    rewrite Hcontent. cbn [re_findall re_sub bind].
    repeat split; intros ->; reflexivity.
Qed.

(** ** The cached raw lists *)

(** In every message a caller can hold, a raw list that is cached is the
    extraction from the current content. *)
Lemma hydrated_caches_current (m : Msg) :
  hydrated strptime m ->
  (forall v, _raw_mentions m = Some v ->
             re_findall Re.user_pattern (content m) = Ok v) /\
  (forall v, _raw_channel_mentions m = Some v ->
             re_findall Re.channel_pattern (content m) = Ok v) /\
  (forall v, _raw_role_mentions m = Some v ->
             re_findall Re.role_pattern (content m) = Ok v).
Proof.
  induction 1 as [data self self' H
                 |self v self' _ IH H|self v self' _ IH H
                 |self v self' _ IH H|self v self' _ IH H].
  - destruct (_update_caches_unset _ _ H) as (-> & -> & -> & _).
    repeat split; discriminate.
  - destruct IH as (I1 & I2 & I3).
    unfold raw_mentions, cached_slot_property in H.
    destruct (_raw_mentions self) eqn:E.
    + inversion H; subst. rewrite E. auto.
    + destruct (re_findall Re.user_pattern (content self)) eqn:F;
        cbn [bind] in H; inversion H; subst.
      simpl. repeat split; auto. intros w Hw. now inversion Hw; subst.
  - destruct IH as (I1 & I2 & I3).
    unfold raw_channel_mentions, cached_slot_property in H.
    destruct (_raw_channel_mentions self) eqn:E.
    + inversion H; subst. rewrite E. auto.
    + destruct (re_findall Re.channel_pattern (content self)) eqn:F;
        cbn [bind] in H; inversion H; subst.
      simpl. repeat split; auto. intros w Hw. now inversion Hw; subst.
  - destruct IH as (I1 & I2 & I3).
    unfold raw_role_mentions, cached_slot_property in H.
    destruct (_raw_role_mentions self) eqn:E.
    + inversion H; subst. rewrite E. auto.
    + destruct (re_findall Re.role_pattern (content self)) eqn:F;
        cbn [bind] in H; inversion H; subst.
      simpl. repeat split; auto. intros w Hw. now inversion Hw; subst.
  - destruct IH as (I1 & I2 & I3).
    unfold clean_content, cached_slot_property in H.
    destruct (_clean_content self) eqn:E.
    + inversion H; subst. auto.
    + destruct (clean_content_function self) eqn:F;
        cbn [bind] in H; inversion H; subst.
      simpl. auto.
Qed.

(** What a raw-list property returns on such a message is the extraction
    from its content. *)
Lemma hydrated_raw_values (m : Msg) :
  hydrated strptime m ->
  value (raw_mentions m) = re_findall Re.user_pattern (content m) /\
  value (raw_channel_mentions m)
  = re_findall Re.channel_pattern (content m) /\
  value (raw_role_mentions m) = re_findall Re.role_pattern (content m).
Proof.
  intros H. destruct (hydrated_caches_current H) as (I1 & I2 & I3).
  unfold value, raw_mentions, raw_channel_mentions, raw_role_mentions,
    cached_slot_property.
  repeat split.
  - destruct (_raw_mentions m) as [v|]; [now rewrite (I1 v eq_refl)|].
    now destruct (re_findall Re.user_pattern (content m)).
  - destruct (_raw_channel_mentions m) as [v|]; [now rewrite (I2 v eq_refl)|].
    now destruct (re_findall Re.channel_pattern (content m)).
  - destruct (_raw_role_mentions m) as [v|]; [now rewrite (I3 v eq_refl)|].
    now destruct (re_findall Re.role_pattern (content m)).
Qed.

(** C5.  The three raw lists are functions of the content alone: two
    hydrated messages with the same content give the same [raw_mentions],
    [raw_channel_mentions] and [raw_role_mentions], whatever their channels,
    servers and rosters are. *)
Theorem raw_lists_depend_on_content_only (m1 m2 : Msg) :
  hydrated strptime m1 ->
  hydrated strptime m2 ->
  content m1 = content m2 ->
  value (raw_mentions m1) = value (raw_mentions m2) /\
  value (raw_channel_mentions m1) = value (raw_channel_mentions m2) /\
  value (raw_role_mentions m1) = value (raw_role_mentions m2).
Proof.
  intros H1 H2 Hc.
  destruct (hydrated_raw_values H1) as (-> & -> & ->).
  destruct (hydrated_raw_values H2) as (-> & -> & ->).
  now rewrite Hc.
Qed.

(** ** [clean_content] *)

(** The keys of the dict of the first pass are markers of the resolved
    entities. *)
Lemma transformation_keys (self : Msg) (k : str) :
  In k (Dict.keys (mention_transformations self)) ->
  (exists c, In c (channel_mentions self) /\ k = Marker.channel (Channel.id c))
  \/ (exists m, In m (mentions self) /\ k = Marker.user (Member.id m))
  \/ (exists m, In m (mentions self) /\ k = Marker.nick (Member.id m))
  \/ (exists r, In r (role_mentions self) /\ k = Marker.role (Role.id r)).
Proof.
  unfold mention_transformations. intros H.
  assert (H' : In k (Dict.keys
                 (Dict.update
                    (Dict.update
                       (Dict.comprehension
                          (fun channel => lit "<#" ++ Channel.id channel ++ lit ">")
                          (fun channel => lit "#" ++ Channel.name channel)
                          (channel_mentions self))
                       (Dict.comprehension
                          (fun member => lit "<@" ++ Member.id member ++ lit ">")
                          (fun member => lit "@" ++ Member.display_name member)
                          (mentions self)))
                    (Dict.comprehension
                       (fun member => lit "<@!" ++ Member.id member ++ lit ">")
                       (fun member => lit "@" ++ Member.display_name member)
                       (mentions self))))
             \/ In k (Dict.keys
                   (Dict.comprehension
                      (fun role => lit "<@&" ++ Role.id role ++ lit ">")
                      (fun role => lit "@" ++ Role.name role)
                      (role_mentions self)))).
  { destruct (server self); [|now left]. now apply keys_update. }
  clear H. destruct H' as [H|H].
  - apply keys_update in H. destruct H as [H|H].
    + apply keys_update in H. destruct H as [H|H].
      * apply keys_comprehension in H. now left.
      * apply keys_comprehension in H. right. now left.
    + apply keys_comprehension in H. right. right. now left.
  - apply keys_comprehension in H. right. right. now right.
Qed.

Lemma transformation_keys_head (self : Msg) (k : str) :
  In k (Dict.keys (mention_transformations self)) ->
  exists body, k = Marker.lt :: body.
Proof.
  intros H. apply transformation_keys in H.
  destruct H as [(x & _ & ->)|[(x & _ & ->)|[(x & _ & ->)|(x & _ & ->)]]];
    now eexists.
Qed.

Lemma decimal_bracketed (q d : str) :
  ~ In Marker.lt q -> ~ In Marker.gt q -> forallb is_digit d = true ->
  Marker.bracketed ((Marker.lt :: q) ++ d ++ lit ">").
Proof.
  intros H1 H2 Hd. exists (q ++ d). split; [simpl; now rewrite <- app_assoc|].
  intros c H. apply in_app_iff in H. destruct H as [H|H].
  - split; intros ->; auto.
  - rewrite forallb_forall in Hd. apply Hd in H.
    split; intros ->; discriminate.
Qed.

Lemma transformation_keys_bracketed (self : Msg) (k : str) :
  decimal_ids self ->
  In k (Dict.keys (mention_transformations self)) ->
  Marker.bracketed k.
Proof.
  intros (Hm & Hc & Hr) H. apply transformation_keys in H.
  destruct H as [(x & Hx & ->)|[(x & Hx & ->)|[(x & Hx & ->)|(x & Hx & ->)]]].
  - apply (@decimal_bracketed (lit "#")); auto; not_in_literal.
  - apply (@decimal_bracketed (lit "@")); auto; not_in_literal.
  - apply (@decimal_bracketed (lit "@!")); auto; not_in_literal.
  - apply (@decimal_bracketed (lit "@&")); auto; not_in_literal.
Qed.

(** The first pass copies a text without [<]. *)
Lemma substitute_mentions_plain (self : Msg) (s : str) :
  ~ In Marker.lt s -> substitute_mentions self s = s.
Proof.
  intros Hs. unfold substitute_mentions.
  destruct (Dict.keys (mention_transformations self)) as [|k ks] eqn:E.
  - apply sub_empty_pattern.
    destruct (mention_transformations self); [reflexivity|discriminate].
  - cbn [Re.alternation]. rewrite <- (app_nil_r s) at 1.
    rewrite sub_skip; trivial.
    + rewrite sub_nil; [now rewrite app_nil_r|].
      intros a Ha. apply (@transformation_keys_head self). now rewrite E.
    + intros a Ha. apply (@transformation_keys_head self). now rewrite E.
Qed.

(** C7.  [clean_content] ends with a second pass over the result of the
    mention substitution that puts U+200B right after the [@] of every
    literal [@everyone] and [@here]; neither token occurs in what it
    returns.  For the content [ping @everyone now] it returns the text with
    the defused token. *)
Theorem broadcasts_are_defused (self : Msg) (c : str) :
  content self = Some c ->
  exists out,
    clean_content_function self = Ok out /\
    out = zwsp_after_broadcast_at (substitute_mentions self c) /\
    occurs (lit "@everyone") out = false /\
    occurs (lit "@here") out = false /\
    (c = lit "ping @everyone now" ->
     out = lit "ping @" ++ zwsp :: lit "everyone now" /\
     occurs (lit "@" ++ zwsp :: lit "everyone") out = true).
Proof.
  intros Hc. eexists. split; [|split; [reflexivity|]].
  - unfold clean_content_function. rewrite Hc. cbn [re_sub bind].
    now rewrite defuse_broadcasts_spec.
  - split; [apply zwsp_after_no_broadcast; now left|].
    split; [apply zwsp_after_no_broadcast; now right|].
    intros ->. rewrite substitute_mentions_plain by not_in_literal.
    split; reflexivity.
Qed.

(** C3, as the code has it.  A mention marker in the content that is not a
    key of the dict is not rewritten: it stays in the output as it is,
    between the results for the text before it and the text after it.  The
    ids of the resolved entities are taken to be decimal. *)
Theorem unmapped_marker_is_left_as_markup (self : Msg)
    (pre marker post : str) :
  decimal_ids self ->
  Marker.is_marker marker ->
  ~ In marker (Dict.keys (mention_transformations self)) ->
  content self = Some (pre ++ marker ++ post) ->
  clean_content_function self
  = Ok (defuse_broadcasts (substitute_mentions self pre)
        ++ marker
        ++ defuse_broadcasts (substitute_mentions self post)).
Proof.
  intros Hids Hm Hnot Hc.
  unfold clean_content_function. rewrite Hc. cbn [re_sub bind]. f_equal.
  fold (substitute_mentions self (pre ++ marker ++ post)).
  assert (E : substitute_mentions self (pre ++ marker ++ post)
              = substitute_mentions self pre ++ marker
                ++ substitute_mentions self post).
  { unfold substitute_mentions. apply sub_keeps_unmapped_marker.
    - intros k. now apply transformation_keys_bracketed.
    - apply get_missing. intros H.
      apply (@transformation_keys_bracketed self [] Hids) in H.
      destruct H as (body & ? & _). discriminate.
    - now apply marker_bracketed.
    - exact Hnot. }
  rewrite E, !defuse_broadcasts_spec.
  destruct (marker_bracketed Hm) as (body & Eb & _).
  rewrite zwsp_after_app by (right; rewrite Eb; now eexists).
  now rewrite zwsp_after_marker.
Qed.

(** C8.  No text is matched at its head by two of the three patterns, and
    a marker is counted in one category only: around a role marker
    [raw_role_mentions] gains its id while [raw_mentions] and
    [raw_channel_mentions] are what they are for the text before and the
    text after it; likewise a channel marker is seen by
    [raw_channel_mentions] alone, and the two user forms by [raw_mentions]
    alone. *)
Theorem marker_counts_in_one_category (m : Msg) (pre d post : str) :
  hydrated strptime m ->
  Marker.is_id d ->
  (forall s,
      (Re.user_pattern s <> None ->
       Re.channel_pattern s = None /\ Re.role_pattern s = None) /\
      (Re.channel_pattern s <> None ->
       Re.user_pattern s = None /\ Re.role_pattern s = None) /\
      (Re.role_pattern s <> None ->
       Re.user_pattern s = None /\ Re.channel_pattern s = None))
  /\
  (content m = Some (pre ++ Marker.role d ++ post) ->
   value (raw_mentions m)
   = Ok (Re.findall Re.user_pattern pre ++ Re.findall Re.user_pattern post) /\
   value (raw_channel_mentions m)
   = Ok (Re.findall Re.channel_pattern pre
         ++ Re.findall Re.channel_pattern post) /\
   value (raw_role_mentions m)
   = Ok (Re.findall Re.role_pattern pre
         ++ d :: Re.findall Re.role_pattern post))
  /\
  (content m = Some (pre ++ Marker.channel d ++ post) ->
   value (raw_mentions m)
   = Ok (Re.findall Re.user_pattern pre ++ Re.findall Re.user_pattern post) /\
   value (raw_channel_mentions m)
   = Ok (Re.findall Re.channel_pattern pre
         ++ d :: Re.findall Re.channel_pattern post) /\
   value (raw_role_mentions m)
   = Ok (Re.findall Re.role_pattern pre ++ Re.findall Re.role_pattern post))
  /\
  (content m = Some (pre ++ Marker.user d ++ post) \/
   content m = Some (pre ++ Marker.nick d ++ post) ->
   value (raw_mentions m)
   = Ok (Re.findall Re.user_pattern pre
         ++ d :: Re.findall Re.user_pattern post) /\
   value (raw_channel_mentions m)
   = Ok (Re.findall Re.channel_pattern pre
         ++ Re.findall Re.channel_pattern post) /\
   value (raw_role_mentions m)
   = Ok (Re.findall Re.role_pattern pre ++ Re.findall Re.role_pattern post)).
Proof.
  intros H Hd. destruct (hydrated_raw_values H) as (-> & -> & ->).
  split; [exact patterns_match_exclusively|]. split; [|split].
  - intros ->. cbn [re_findall].
    destruct (findall_around_role pre post Hd) as (-> & -> & ->). auto.
  - intros ->. cbn [re_findall].
    destruct (findall_around_channel pre post Hd) as (-> & -> & ->). auto.
  - intros [-> | ->]; cbn [re_findall].
    + destruct (findall_around_user pre post Hd) as (-> & -> & ->). auto.
    + destruct (findall_around_nick pre post Hd) as (-> & -> & ->). auto.
Qed.

(** ** Hydrating again *)

(** What a hydration makes of the message it starts from depends on one
    thing only: the cache slot of [raw_channel_mentions]. *)
Lemma _update_depends_on_channel_cache (data : Data) (a b : Msg) :
  _raw_channel_mentions a = _raw_channel_mentions b ->
  _update strptime data a = _update strptime data b.
Proof.
  intros Hab.
  destruct (parse_time strptime (p_edited_timestamp data)) as [e|x] eqn:He;
    [|unfold _update; now rewrite He].
  destruct (parse_time strptime (p_timestamp data)) as [c|x] eqn:Hc;
    [|unfold _update; now rewrite He, Hc].
  destruct (p_channel data) as [[ch srv|i|i [[|]|]]|] eqn:Hch.
  - rewrite !(_update_server_channel _ _ He Hc Hch).
    unfold channel_ids_seen. now rewrite Hab.
  - now rewrite !(_update_private _ _ He Hc) by now rewrite Hch.
  - now rewrite !(_update_private _ _ He Hc) by now rewrite Hch.
  - now rewrite !(_update_public_object _ _ He Hc Hch).
  - now rewrite !(_update_private _ _ He Hc) by now rewrite Hch.
  - now rewrite !(_update_private _ _ He Hc) by now rewrite Hch.
Qed.

(** Starting from an unset slot, hydrating twice with one payload is
    hydrating once. *)
Lemma _update_again (data : Data) (self self' : Msg) :
  _raw_channel_mentions self = None ->
  _update strptime data self = Ok self' ->
  _update strptime data self' = Ok self'.
Proof.
  intros Hn H. transitivity (_update strptime data self); [|exact H].
  apply _update_depends_on_channel_cache.
  destruct (_update_caches_unset _ _ H) as (_ & -> & _). now rewrite Hn.
Qed.

(** In a server channel, the channel mentions are resolved from the cache
    slot when it is set, whatever the new content is. *)
Lemma _update_resolves_cached_channels (data : Data) (self self' : Msg)
    c srv (seen : list str) :
  p_channel data = Some (TextChannel c srv) ->
  _raw_channel_mentions self = Some seen ->
  _update strptime data self = Ok self' ->
  channel_mentions self' = resolve (Server.get_channel srv) seen.
Proof.
  intros Hch Hseen H.
  destruct (_update_parsed _ _ H) as (edited & created & He & Hc).
  rewrite (_update_server_channel _ _ He Hc Hch) in H.
  unfold channel_ids_seen in H. rewrite Hseen in H. cbn [bind] in H.
  now inversion H.
Qed.

(** With the slot unset they are resolved from the new content. *)
Lemma _update_resolves_new_content (data : Data) (self self' : Msg)
    c srv (text : str) :
  p_channel data = Some (TextChannel c srv) ->
  p_content data = Some text ->
  _raw_channel_mentions self = None ->
  _update strptime data self = Ok self' ->
  channel_mentions self'
  = resolve (Server.get_channel srv) (Re.findall Re.channel_pattern text).
Proof.
  intros Hch Htext Hseen H.
  destruct (_update_parsed _ _ H) as (edited & created & He & Hc).
  rewrite (_update_server_channel _ _ He Hc Hch) in H.
  unfold channel_ids_seen in H. rewrite Hseen, Htext in H.
  cbn [re_findall bind] in H. now inversion H.
Qed.

End Hydration.

(** * The properties on the example server *)

Import Scenario.

(** C1 at a private message full of mention markup. *)
Lemma private_channel_resolves_no_mentions_witness :
  exists m,
    _update strptime
      (in_private "hi <@123> <#1> <@&7>" [user "123"]) (blank str unit)
    = Ok m /\
    mentions m = [] /\ channel_mentions m = [] /\ role_mentions m = [].
Proof.
  destruct (@private_channel_resolves_no_mentions str unit strptime
              (in_private "hi <@123> <#1> <@&7>" [user "123"])
              (blank str unit)) as [A B].
  destruct (B None posted_at eq_refl eq_refl eq_refl) as (m & Hm & Hp).
  exists m. split; [exact Hm|]. exact (A m Hm Hp).
Defined.

(** C9 at a payload that knows its channel by id only. *)
Lemma placeholder_channel_and_server_witness :
  exists m,
    _update strptime (in_unknown (Some (lit "hello"))) (blank str unit)
    = Ok m /\
    channel m = Some (Object (lit "5") (Some true)) /\ server m = None.
Proof.
  destruct (@placeholder_channel_and_server str unit strptime
              (in_unknown (Some (lit "hello"))) (blank str unit))
    as [A _].
  exact (A (lit "5") None posted_at eq_refl eq_refl eq_refl eq_refl).
Defined.

(** C10 at a payload without content. *)
Lemma missing_content_breaks_derived_properties_witness :
  exists m,
    _update strptime (in_unknown None) (blank str unit) = Ok m /\
    content m = None /\
    raw_mentions m = Raise TypeError /\
    raw_channel_mentions m = Raise TypeError /\
    raw_role_mentions m = Raise TypeError /\
    clean_content m = Raise TypeError.
Proof.
  destruct (@missing_content_breaks_derived_properties str unit strptime
              (in_unknown None) (blank str unit)) as [A _].
  exact (A None posted_at eq_refl eq_refl eq_refl eq_refl).
Defined.

(** C5 at one text posted where the roster knows the entities mentioned
    and where it does not: the raw lists agree, the resolved ones do not. *)
Lemma raw_lists_depend_on_content_only_witness :
  let m1 := built (in_general "hey <@123> see <#1>" [user "123"]) in
  let m2 := built (in_empty_guild "hey <@123> see <#1>" [user "123"]) in
  (value (raw_mentions m1) = value (raw_mentions m2) /\
   value (raw_channel_mentions m1) = value (raw_channel_mentions m2) /\
   value (raw_role_mentions m1) = value (raw_role_mentions m2)) /\
  mentions m1 = [alice] /\ mentions m2 = [] /\
  channel_mentions m1 = [general] /\ channel_mentions m2 = [].
Proof.
  intros m1 m2. split; [|now vm_compute].
  apply (@raw_lists_depend_on_content_only str unit strptime m1 m2).
  - apply hydrated_update
      with (data := in_general "hey <@123> see <#1>" [user "123"])
           (self := blank str unit).
    vm_compute. reflexivity.
  - apply hydrated_update
      with (data := in_empty_guild "hey <@123> see <#1>" [user "123"])
           (self := blank str unit).
    vm_compute. reflexivity.
  - reflexivity.
Defined.


(** C7 at the text [ping @everyone now]. *)
Lemma broadcasts_are_defused_witness :
  exists out,
    clean_content_function (built (in_general "ping @everyone now" []))
    = Ok out /\
    out = lit "ping @" ++ zwsp :: lit "everyone now" /\
    occurs (lit "@everyone") out = false /\
    occurs (lit "@" ++ zwsp :: lit "everyone") out = true.
Proof.
  destruct (@broadcasts_are_defused str unit
              (built (in_general "ping @everyone now" []))
              (lit "ping @everyone now") eq_refl)
    as (out & H1 & _ & H3 & _ & H5).
  destruct (H5 eq_refl) as [H6 H7].
  exists out. auto.
Defined.

(** C3, as the code has it, at a text with one unresolved and one resolved
    mention. *)
Lemma unmapped_marker_is_left_as_markup_witness :
  clean_content_function
    (built (in_general "hi <@999> <@123>" [user "999"; user "123"]))
  = Ok (lit "hi <@999> @Alice").
Proof.
  rewrite (@unmapped_marker_is_left_as_markup str unit
             (built (in_general "hi <@999> <@123>" [user "999"; user "123"]))
             (lit "hi ") (lit "<@999>") (lit " <@123>")).
  - vm_compute. reflexivity.
  - repeat split; intros x H; vm_compute in H;
      repeat (destruct H as [H|H]; [subst x; reflexivity|]); destruct H.
  - exists (lit "999"). split; [split; [discriminate|reflexivity]|].
    left. reflexivity.
  - vm_compute. intros H.
    repeat (destruct H as [H|H]; [discriminate|]). exact H.
  - reflexivity.
Defined.

(** C8 at a role marker between two words. *)
Lemma marker_counts_in_one_category_witness :
  let m := built (in_general "ask <@&7> now" []) in
  value (raw_mentions m) = Ok [] /\
  value (raw_channel_mentions m) = Ok [] /\
  value (raw_role_mentions m) = Ok [lit "7"].
Proof.
  intros m.
  destruct (@marker_counts_in_one_category str unit strptime m
              (lit "ask ") (lit "7") (lit " now")) as (_ & A & _).
  - apply hydrated_update
      with (data := in_general "ask <@&7> now" []) (self := blank str unit).
    vm_compute. reflexivity.
  - split; [discriminate|reflexivity].
  - exact (A eq_refl).
Defined.

(** C3 as the specification words it fails: for the content [<@999>],
    where 999 is not in the roster, the marker is no key of the dict, and
    [clean_content] returns the marker, not the empty text. *)
Lemma unresolved_marker_is_not_erased :
  let m := built (in_general "<@999>" [user "999"]) in
  __init__ strptime (in_general "<@999>" [user "999"]) = Ok m /\
  mentions m = [] /\
  ~ In (lit "<@999>") (Dict.keys (mention_transformations m)) /\
  value (clean_content m) = Ok (lit "<@999>") /\
  value (clean_content m) <> Ok [].
Proof.
  intros m. split; [vm_compute; reflexivity|].
  split; [reflexivity|]. split; [intros []|].
  split; [reflexivity|discriminate].
Qed.

(** C2 at a message that is edited after its [raw_channel_mentions] was
    read: the new content mentions [#random], the extraction from it says
    so, and [channel_mentions] holds [#general], resolved from the list
    cached for the old content. *)
Lemma stale_channel_mentions_after_edit :
  let m0 := built (in_general "<#1>" []) in
  let m1 := after_reading_channels m0 in
  let m2 := updated (in_general "<#2>" []) m1 in
  __init__ strptime (in_general "<#1>" []) = Ok m0 /\
  raw_channel_mentions m0 = Ok ([lit "1"], m1) /\
  _update strptime (in_general "<#2>" []) m1 = Ok m2 /\
  content m2 = Some (lit "<#2>") /\
  value (raw_channel_mentions m2) = Ok [lit "2"] /\
  resolve (Server.get_channel guild) [lit "2"] = [random] /\
  channel_mentions m2 = [general].
Proof.
  intros m0 m1 m2.
  split; [vm_compute; reflexivity|].
  split; [vm_compute; reflexivity|].
  split; [vm_compute; reflexivity|].
  now vm_compute.
Qed.

(** C6 at the same message: the first of two hydrations with one payload
    resolves the cached list, the second the new content, and the two
    results differ. *)
Lemma second_hydration_differs_from_first :
  let m1 := after_reading_channels (built (in_general "<#1>" [])) in
  let m2 := updated (in_general "<#2>" []) m1 in
  let m3 := updated (in_general "<#2>" []) m2 in
  _update strptime (in_general "<#2>" []) m1 = Ok m2 /\
  _update strptime (in_general "<#2>" []) m2 = Ok m3 /\
  channel_mentions m2 = [general] /\
  channel_mentions m3 = [random] /\
  m2 <> m3.
Proof.
  intros m1 m2 m3.
  split; [vm_compute; reflexivity|].
  split; [vm_compute; reflexivity|].
  split; [reflexivity|]. split; [reflexivity|].
  intros H. apply (f_equal (@channel_mentions _ _)) in H. discriminate.
Qed.

(** * More about hydration *)

Section HydrationAgain.

Variables datetime json : Type.
Variable strptime : str -> result datetime.

Local Abbreviation Msg := (Message.t datetime json).
Local Abbreviation Data := (Message.Payload json).

Lemma resolve_In (A B : Type) (lookup : A -> option B) (ids : list A)
    (e : B) :
  In e (resolve lookup ids) <-> exists i, In i ids /\ lookup i = Some e.
Proof.
  unfold resolve. rewrite in_flat_map. split.
  - intros (i & Hi & H). exists i. split; [exact Hi|].
    destruct (lookup i) as [e'|]; [|destruct H].
    destruct H as [->|[]]. reflexivity.
  - intros (i & Hi & H). exists i. split; [exact Hi|]. rewrite H. now left.
Qed.

Lemma resolve_length (A B : Type) (lookup : A -> option B) (ids : list A) :
  List.length (resolve lookup ids) <= List.length ids.
Proof.
  induction ids as [|i ids IH]; simpl; [lia|].
  rewrite length_app. destruct (lookup i); simpl; lia.
Qed.

(** X1.  The author of a hydrated message is the roster's member when the
    channel is a server channel whose server knows the id of the payload's
    author, and the user parsed from the payload in every other case: an
    unknown id, a private channel, an [Object], no channel. *)
Theorem author_is_upgraded_in_server_channels_only (data : Data)
    (self self' : Msg) :
  _update strptime data self = Ok self' ->
  (forall c srv found,
      p_channel data = Some (TextChannel c srv) ->
      Server.get_member srv
        (UserData.id (get_default (p_author data) UserData.empty))
      = Some found ->
      author self' = AuthorMember found)
  /\
  (forall c srv,
      p_channel data = Some (TextChannel c srv) ->
      Server.get_member srv
        (UserData.id (get_default (p_author data) UserData.empty))
      = None ->
      author self' = parsed_author data)
  /\
  ((forall c srv, p_channel data <> Some (TextChannel c srv)) ->
   author self' = parsed_author data).
Proof.
  intros H. destruct (_update_parsed _ _ _ H) as (edited & created & He & Hc).
  split; [|split].
  - intros c srv found Hch Hf.
    rewrite (_update_server_channel _ _ _ He Hc Hch) in H.
    destruct (channel_ids_seen data self); cbn [bind] in H; inversion H.
    cbn [hydrated_message author]. unfold upgraded_author.
    cbn [parsed_author author_id User.init User.id]. now rewrite Hf.
  - intros c srv Hch Hf.
    rewrite (_update_server_channel _ _ _ He Hc Hch) in H.
    destruct (channel_ids_seen data self); cbn [bind] in H; inversion H.
    cbn [hydrated_message author]. unfold upgraded_author.
    cbn [parsed_author author_id User.init User.id]. now rewrite Hf.
  - intros Hno.
    destruct (p_channel data) as [[c srv|i|i [[|]|]]|] eqn:Hch.
    + now elim (Hno c srv).
    + rewrite (_update_private _ _ _ He Hc) in H by now rewrite Hch.
      now inversion H.
    + rewrite (_update_private _ _ _ He Hc) in H by now rewrite Hch.
      now inversion H.
    + rewrite (_update_public_object _ _ _ He Hc Hch) in H.
      destruct (get_default (p_mentions data) []); now inversion H.
    + rewrite (_update_private _ _ _ He Hc) in H by now rewrite Hch.
      now inversion H.
    + rewrite (_update_private _ _ _ He Hc) in H by now rewrite Hch.
      now inversion H.
Qed.

(** X2.  In a server channel [mentions] and [role_mentions] hold what the
    roster finds for the entries of the payload's [mentions] and
    [mention_roles], in the order of the payload: an entry that is not
    found is dropped, an entry that occurs twice is found twice, and
    nothing else gets in. *)
Theorem payload_mentions_are_resolved_in_order (data : Data)
    (self self' : Msg) (c : Channel.t) (srv : Server.t) :
  p_channel data = Some (TextChannel c srv) ->
  _update strptime data self = Ok self' ->
  let users := get_default (p_mentions data) [] in
  let role_ids := get_default (p_mention_roles data) [] in
  mentions self'
  = flat_map
      (fun mention =>
         match Server.get_member srv (UserData.id mention) with
         | Some member => [member]
         | None => []
         end)
      users /\
  role_mentions self'
  = flat_map
      (fun role_id =>
         match find (fun role => Str.eqb (Role.id role) role_id)
                 (Server.roles srv) with
         | Some role => [role]
         | None => []
         end)
      role_ids /\
  List.length (mentions self') <= List.length users /\
  List.length (role_mentions self') <= List.length role_ids /\
  (forall member,
      In member (mentions self') <->
      exists mention,
        In mention users /\
        Server.get_member srv (UserData.id mention) = Some member) /\
  (forall role, In role (role_mentions self') ->
                In role (Server.roles srv) /\ In (Role.id role) role_ids).
Proof.
  intros Hch H users role_ids.
  destruct (_update_parsed _ _ _ H) as (edited & created & He & Hc).
  rewrite (_update_server_channel _ _ _ He Hc Hch) in H.
  destruct (channel_ids_seen data self); cbn [bind] in H; inversion H.
  cbn [hydrated_message mentions role_mentions].
  split; [reflexivity|]. split; [reflexivity|].
  split; [apply resolve_length|]. split; [apply resolve_length|].
  split.
  - intros member. apply resolve_In.
  - intros role Hr. apply resolve_In in Hr. destruct Hr as (i & Hi & Hr).
    unfold Utils.get in Hr. apply find_some in Hr. destruct Hr as [Hr E].
    apply eqb_eq in E. subst i. auto.
Qed.

(** X3.  When the cache slot of [raw_channel_mentions] is unset, as it is
    in a new message, [channel_mentions] holds the channels that the
    server finds for the channel markers of the content, in the order of
    the text, once for each marker. *)
Theorem channel_mentions_follow_the_text (data : Data) (self self' : Msg)
    (c : Channel.t) (srv : Server.t) (text : str) :
  p_channel data = Some (TextChannel c srv) ->
  p_content data = Some text ->
  _raw_channel_mentions self = None ->
  _update strptime data self = Ok self' ->
  channel_mentions self'
  = flat_map
      (fun i =>
         match Server.get_channel srv i with
         | Some channel => [channel]
         | None => []
         end)
      (Re.findall Re.channel_pattern text) /\
  (forall pre d post,
      Marker.is_id d -> text = pre ++ Marker.channel d ++ post ->
      channel_mentions self'
      = resolve (Server.get_channel srv) (Re.findall Re.channel_pattern pre)
        ++ resolve (Server.get_channel srv) [d]
        ++ resolve (Server.get_channel srv)
             (Re.findall Re.channel_pattern post)).
Proof.
  intros Hch Htext Hslot H.
  rewrite (_update_resolves_new_content _ _ _ Hch Htext Hslot H).
  split; [reflexivity|].
  intros pre d post Hd ->.
  destruct (findall_around_channel pre post Hd) as (_ & -> & _).
  unfold resolve. rewrite flat_map_app. cbn [flat_map]. now rewrite app_nil_r.
Qed.

(** X4.  An [Object] that says it is not private gets no server; its
    hydration completes, with nothing resolved, when the payload mentions
    no user, and raises [AttributeError] at the first user mention
    otherwise. *)
Theorem public_object_cannot_resolve (data : Data) (self : Msg)
    (i : str) edited created :
  parse_time strptime (p_edited_timestamp data) = Ok edited ->
  parse_time strptime (p_timestamp data) = Ok created ->
  p_channel data = Some (Object i (Some false)) ->
  (get_default (p_mentions data) [] = [] ->
   exists self',
     _update strptime data self = Ok self' /\
     channel self' = Some (Object i (Some false)) /\
     server self' = None /\
     mentions self' = [] /\ channel_mentions self' = [] /\
     role_mentions self' = []) /\
  (get_default (p_mentions data) [] <> [] ->
   _update strptime data self = Raise AttributeError).
Proof.
  intros He Hc Hch. rewrite (_update_public_object _ _ _ He Hc Hch).
  destruct (get_default (p_mentions data) []) as [|m ms].
  - split; [|intros E; now elim E]. intros _. eexists.
    split; [reflexivity|]. cbn [hydrated_message channel server mentions
                                channel_mentions role_mentions].
    unfold upgraded_channel. rewrite Hch. now repeat split.
  - split; [discriminate|reflexivity].
Qed.

(** X5.  In a server channel a payload without [content] cannot be
    hydrated when the cache slot of [raw_channel_mentions] is unset: the
    channel pattern is applied to [None] and [TypeError] comes out of
    [_update].  With a string as content, or with the slot set, the
    hydration completes. *)
Theorem server_channel_needs_content (data : Data) (self : Msg)
    (c : Channel.t) (srv : Server.t) edited created :
  parse_time strptime (p_edited_timestamp data) = Ok edited ->
  parse_time strptime (p_timestamp data) = Ok created ->
  p_channel data = Some (TextChannel c srv) ->
  (p_content data = None -> _raw_channel_mentions self = None ->
   _update strptime data self = Raise TypeError) /\
  (p_content data <> None \/ _raw_channel_mentions self <> None ->
   exists self', _update strptime data self = Ok self' /\
                 server self' = Some srv).
Proof.
  intros He Hc Hch. rewrite (_update_server_channel _ _ _ He Hc Hch).
  unfold channel_ids_seen. split.
  - intros -> ->. reflexivity.
  - intros [Hcontent|Hslot].
    + destruct (_raw_channel_mentions self); [now eexists|].
      destruct (p_content data); [now eexists|now elim Hcontent].
    + destruct (_raw_channel_mentions self); [now eexists|now elim Hslot].
Qed.

(** X6.  When a hydration raises, and what: the exception of the date
    parser for a malformed [edited_timestamp] or, after it, [timestamp];
    [AttributeError] for an [Object] that says it is not private when the
    payload mentions a user; [TypeError] for a server channel without
    content when the channel cache is unset.  In no other case does it
    raise. *)
Theorem hydration_raises_exactly (data : Data) (self : Msg) (e : exn) :
  _update strptime data self = Raise e <->
  parse_time strptime (p_edited_timestamp data) = Raise e
  \/
  (exists edited,
      parse_time strptime (p_edited_timestamp data) = Ok edited /\
      parse_time strptime (p_timestamp data) = Raise e)
  \/
  (exists edited created,
      parse_time strptime (p_edited_timestamp data) = Ok edited /\
      parse_time strptime (p_timestamp data) = Ok created /\
      ((e = AttributeError /\
        (exists i, p_channel data = Some (Object i (Some false))) /\
        get_default (p_mentions data) [] <> [])
       \/
       (e = TypeError /\
        (exists c srv, p_channel data = Some (TextChannel c srv)) /\
        p_content data = None /\ _raw_channel_mentions self = None))).
Proof.
  destruct (parse_time strptime (p_edited_timestamp data))
    as [edited|x] eqn:He.
  2:{ unfold _update. rewrite He. cbn [bind]. split.
      - intros [= ->]. now left.
      - intros [H|[(ed & H & _)|(ed & cr & H & _)]]; congruence. }
  destruct (parse_time strptime (p_timestamp data)) as [created|x] eqn:Hc.
  2:{ unfold _update. rewrite He, Hc. cbn [bind]. split.
      - intros [= ->]. right. left. now exists edited.
      - intros [H|[(ed & _ & H)|(ed & cr & _ & H & _)]]; congruence. }
  split.
  - intros H. right. right. exists edited, created.
    split; [reflexivity|]. split; [reflexivity|].
    destruct (p_channel data) as [[c srv|i|i [[|]|]]|] eqn:Hch.
    + rewrite (_update_server_channel _ _ _ He Hc Hch) in H.
      unfold channel_ids_seen in H.
      destruct (_raw_channel_mentions self); [discriminate|].
      destruct (p_content data); [discriminate|].
      cbn [re_findall bind] in H. inversion H.
      right. repeat split; trivial. now exists c, srv.
    + rewrite (_update_private _ _ _ He Hc) in H by now rewrite Hch.
      discriminate.
    + rewrite (_update_private _ _ _ He Hc) in H by now rewrite Hch.
      discriminate.
    + rewrite (_update_public_object _ _ _ He Hc Hch) in H.
      destruct (get_default (p_mentions data) []); [discriminate|].
      inversion H. left. repeat split; [now exists i|discriminate].
    + rewrite (_update_private _ _ _ He Hc) in H by now rewrite Hch.
      discriminate.
    + rewrite (_update_private _ _ _ He Hc) in H by now rewrite Hch.
      discriminate.
  - intros [H|[(ed & _ & H)|(ed & cr & _ & _ & H)]]; [discriminate..|].
    destruct H as [(-> & (i & Hch) & Hm)|(-> & (c & srv & Hch) & Hn & Hs)].
    + rewrite (_update_public_object _ _ _ He Hc Hch).
      destruct (get_default (p_mentions data) []); [now elim Hm|reflexivity].
    + rewrite (_update_server_channel _ _ _ He Hc Hch).
      unfold channel_ids_seen. now rewrite Hs, Hn.
Qed.

(** X7.  A hydration writes every slot anew: what it returns depends on
    the message it starts from through the cache slot of
    [raw_channel_mentions] alone, and not at all when the payload's
    channel is not a server channel.  Nothing of the old payload, author
    or resolved lists is kept or added to. *)
Theorem hydration_replaces_the_message (data : Data) (a b : Msg) :
  (_raw_channel_mentions a = _raw_channel_mentions b ->
   _update strptime data a = _update strptime data b) /\
  ((forall c srv, p_channel data <> Some (TextChannel c srv)) ->
   _update strptime data a = _update strptime data b).
Proof.
  split; [apply _update_depends_on_channel_cache|].
  intros Hno.
  destruct (parse_time strptime (p_edited_timestamp data)) as [e|x] eqn:He;
    [|unfold _update; now rewrite He].
  destruct (parse_time strptime (p_timestamp data)) as [c|x] eqn:Hc;
    [|unfold _update; now rewrite He, Hc].
  destruct (p_channel data) as [[ch srv|i|i [[|]|]]|] eqn:Hch.
  - now elim (Hno ch srv).
  - now rewrite !(_update_private _ _ _ He Hc) by now rewrite Hch.
  - now rewrite !(_update_private _ _ _ He Hc) by now rewrite Hch.
  - now rewrite !(_update_public_object _ _ _ He Hc Hch).
  - now rewrite !(_update_private _ _ _ He Hc) by now rewrite Hch.
  - now rewrite !(_update_private _ _ _ He Hc) by now rewrite Hch.
Qed.

End HydrationAgain.

(** * More about [clean_content] *)

Section DictValues.

Lemma In_set (kv : str * str) (k v : str) (d : Dict.t) :
  In kv (Dict.set k v d) -> kv = (k, v) \/ In kv d.
Proof.
  induction d as [|[a w] d IH]; simpl.
  - intros [<-|[]]. now left.
  - destruct (Str.eqb a k); simpl.
    + intros [<-|H]; auto.
    + intros [<-|H]; auto. destruct (IH H); auto.
Qed.

Lemma In_fold_set (A : Type) (key value : A -> str) (xs : list A)
    (d : Dict.t) (kv : str * str) :
  In kv (fold_left (fun d x => Dict.set (key x) (value x) d) xs d) ->
  In kv d \/ exists x, In x xs /\ kv = (key x, value x).
Proof.
  revert d. induction xs as [|x xs IH]; intros d; simpl; [now left|].
  intros H. apply IH in H. destruct H as [H|(y & Hy & ->)].
  - apply In_set in H. destruct H as [->|H]; [right|now left].
    exists x. auto.
  - right. exists y. auto.
Qed.

Lemma keys_fold_new (A : Type) (key value : A -> str) (xs : list A)
    (d : Dict.t) (x : A) :
  In x xs ->
  In (key x)
    (Dict.keys (fold_left (fun d x => Dict.set (key x) (value x) d) xs d)).
Proof.
  revert d. induction xs as [|y xs IH]; intros d; simpl; [intros []|].
  intros [->|H]; [|now apply IH].
  apply keys_fold_old, keys_set_new.
Qed.

(** Under a key that was stored, [get] gives the value of one of the
    elements stored under it. *)
Lemma get_fold_in (A : Type) (key value : A -> str) (xs : list A)
    (d : Dict.t) (x : A) (default : str) :
  In x xs ->
  exists x',
    In x' xs /\ key x' = key x /\
    Dict.get (fold_left (fun d x => Dict.set (key x) (value x) d) xs d)
      (key x) default
    = value x'.
Proof.
  revert d x. induction xs as [|y xs IH]; intros d x; simpl; [intros []|].
  intros Hx.
  destruct (find (fun z => Str.eqb (key z) (key x)) xs) as [z|] eqn:F.
  - apply find_some in F. destruct F as [Hz E]. apply eqb_eq in E.
    destruct (IH (Dict.set (key y) (value y) d) z Hz) as (x' & H1 & H2 & H3).
    exists x'. rewrite <- E. split; [now right|]. split; [congruence|].
    exact H3.
  - destruct Hx as [->|Hx].
    + exists x. split; [now left|]. split; [reflexivity|].
      rewrite get_fold_other.
      * rewrite get_set. now rewrite (proj2 (eqb_eq _ _) eq_refl).
      * intros z Hz E. apply (find_none _ _ F) in Hz.
        rewrite (proj2 (eqb_eq _ _) E) in Hz. discriminate.
    + apply (find_none _ _ F) in Hx.
      rewrite (proj2 (eqb_eq _ _) eq_refl) in Hx. discriminate.
Qed.

Lemma get_update_other (d other : Dict.t) (k default : str) :
  ~ In k (Dict.keys other) ->
  Dict.get (Dict.update d other) k default = Dict.get d k default.
Proof.
  intros H. apply get_fold_other. intros kv Hkv E. apply H.
  rewrite <- E. now apply (in_map fst).
Qed.

Lemma get_update_in (d other : Dict.t) (k default : str) :
  In k (Dict.keys other) ->
  exists v, In (k, v) other /\ Dict.get (Dict.update d other) k default = v.
Proof.
  intros H. apply in_map_iff in H. destruct H as ([k' v] & E & H).
  simpl in E. subst k'.
  destruct (@get_fold_in _ fst snd other d (k, v) default H)
    as ([k' v'] & H1 & H2 & H3).
  simpl in H2. subst k'. exists v'. auto.
Qed.

Lemma keys_update_left (d other : Dict.t) (k : str) :
  In k (Dict.keys d) -> In k (Dict.keys (Dict.update d other)).
Proof. apply keys_fold_old. Qed.

Lemma keys_update_right (d other : Dict.t) (k : str) :
  In k (Dict.keys other) -> In k (Dict.keys (Dict.update d other)).
Proof.
  intros H. apply in_map_iff in H. destruct H as (kv & <- & H).
  now apply (@keys_fold_new _ fst snd).
Qed.

Lemma In_comprehension (A : Type) (key value : A -> str) (xs : list A)
    (kv : str * str) :
  In kv (Dict.comprehension key value xs) ->
  exists x, In x xs /\ kv = (key x, value x).
Proof.
  intros H. apply In_fold_set in H. now destruct H as [[]|H].
Qed.

Lemma keys_comprehension_new (A : Type) (key value : A -> str)
    (xs : list A) (x : A) :
  In x xs -> In (key x) (Dict.keys (Dict.comprehension key value xs)).
Proof. apply keys_fold_new. Qed.

End DictValues.

Section Markers.

Lemma marker_user_inj (d d' : str) : Marker.user d = Marker.user d' -> d = d'.
Proof.
  unfold Marker.user. intros H. apply app_inv_head in H.
  now apply app_inv_tail in H.
Qed.

Lemma marker_nick_inj (d d' : str) : Marker.nick d = Marker.nick d' -> d = d'.
Proof.
  unfold Marker.nick. intros H. apply app_inv_head in H.
  now apply app_inv_tail in H.
Qed.

Lemma marker_role_inj (d d' : str) : Marker.role d = Marker.role d' -> d = d'.
Proof.
  unfold Marker.role. intros H. apply app_inv_head in H.
  now apply app_inv_tail in H.
Qed.

Lemma marker_channel_inj (d d' : str) :
  Marker.channel d = Marker.channel d' -> d = d'.
Proof.
  unfold Marker.channel. intros H. apply app_inv_head in H.
  now apply app_inv_tail in H.
Qed.

(** The marker of a decimal id in the plain user form is no marker of the
    two other [@] forms. *)
Lemma marker_user_not_other (d d' : str) :
  forallb is_digit d = true ->
  Marker.user d <> Marker.nick d' /\ Marker.user d <> Marker.role d'.
Proof.
  intros Hd. unfold Marker.user, Marker.nick, Marker.role.
  destruct d as [|c d].
  - split; discriminate.
  - simpl in Hd. apply andb_prop in Hd. destruct Hd as [Hc _].
    split; intros H; injection H as H _; subst c; discriminate.
Qed.

End Markers.

Section CleanContentAgain.

Variables datetime json : Type.
Variable strptime : str -> result datetime.

Local Abbreviation Msg := (Message.t datetime json).
Local Abbreviation Data := (Message.Payload json).

(** In every message a caller can hold, a cached [clean_content] is what
    the function computes from the message as it is. *)
Lemma hydrated_clean_content_current (m : Msg) :
  hydrated strptime m ->
  forall v, _clean_content m = Some v -> clean_content_function m = Ok v.
Proof.
  induction 1 as [data self self' H
                 |self v self' _ IH H|self v self' _ IH H
                 |self v self' _ IH H|self v self' _ IH H].
  - destruct (_update_caches_unset _ _ _ H) as (_ & _ & _ & ->).
    discriminate.
  - unfold raw_mentions, cached_slot_property in H.
    destruct (_raw_mentions self).
    + inversion H; subst. exact IH.
    + destruct (re_findall Re.user_pattern (content self));
        cbn [bind] in H; inversion H; subst. exact IH.
  - unfold raw_channel_mentions, cached_slot_property in H.
    destruct (_raw_channel_mentions self).
    + inversion H; subst. exact IH.
    + destruct (re_findall Re.channel_pattern (content self));
        cbn [bind] in H; inversion H; subst. exact IH.
  - unfold raw_role_mentions, cached_slot_property in H.
    destruct (_raw_role_mentions self).
    + inversion H; subst. exact IH.
    + destruct (re_findall Re.role_pattern (content self));
        cbn [bind] in H; inversion H; subst. exact IH.
  - unfold clean_content, cached_slot_property in H.
    destruct (_clean_content self) eqn:E.
    + inversion H; subst. rewrite E. exact IH.
    + destruct (clean_content_function self) eqn:F;
        cbn [bind] in H; inversion H; subst.
      intros w Hw. simpl in Hw. inversion Hw; subst. exact F.
Qed.

(** X8.  [clean_content] never returns a value cached for an earlier
    payload: on every message obtained by hydrations and reads of the four
    properties, what it returns is what the function computes from the
    content and the resolved lists that the message has now. *)
Theorem clean_content_is_current (m : Msg) :
  hydrated strptime m ->
  value (clean_content m) = clean_content_function m.
Proof.
  intros H. pose proof (hydrated_clean_content_current H) as I.
  unfold value, clean_content, cached_slot_property.
  destruct (_clean_content m) as [v|]; [now rewrite (I v eq_refl)|].
  now destruct (clean_content_function m).
Qed.

(** With nothing resolved the first pass changes nothing. *)
Lemma substitute_nothing (m : Msg) (text : str) :
  mentions m = [] -> channel_mentions m = [] ->
  (role_mentions m = [] \/ server m = None) ->
  substitute_mentions m text = text.
Proof.
  intros Hm Hc Hr. unfold substitute_mentions.
  assert (E : mention_transformations m = []).
  { unfold mention_transformations. rewrite Hm, Hc.
    destruct Hr as [->| ->]; [now destruct (server m)|reflexivity]. }
  rewrite E. now apply sub_empty_pattern.
Qed.

(** X9.  In a message whose channel is private, absent or a placeholder,
    [clean_content] resolves no marker: it returns the content with the
    broadcast tokens defused and every mention marker as it was written;
    a content without [@] comes back unchanged. *)
Theorem private_clean_content_keeps_markers (data : Data)
    (self self' : Msg) (text : str) :
  _update strptime data self = Ok self' ->
  getattr_is_private (channel self') true = true ->
  content self' = Some text ->
  value (clean_content self') = Ok (zwsp_after_broadcast_at text) /\
  (forall pre marker post,
      Marker.is_marker marker -> text = pre ++ marker ++ post ->
      value (clean_content self')
      = Ok (zwsp_after_broadcast_at pre ++ marker
            ++ zwsp_after_broadcast_at post)) /\
  (~ In 64%N text -> value (clean_content self') = Ok text).
Proof.
  intros H Hp Htext.
  rewrite (_update_channel _ _ _ H), upgraded_channel_private in Hp.
  destruct (_update_parsed _ _ _ H) as (edited & created & He & Hc).
  rewrite (_update_private _ _ _ He Hc Hp) in H. inversion H. subst self'.
  assert (E : value (clean_content
                (hydrated_message data edited created None
                   (parsed_author data) [] [] []))
              = Ok (zwsp_after_broadcast_at text)).
  { unfold value, clean_content, cached_slot_property,
      clean_content_function.
    cbn [_clean_content hydrated_message].
    cbn [content hydrated_message] in Htext.
    cbn [content hydrated_message]. rewrite Htext. cbn [re_sub bind fst].
    f_equal. rewrite defuse_broadcasts_spec. f_equal.
    apply (@substitute_nothing
             (hydrated_message data edited created None
                (parsed_author data) [] [] []) text);
      [reflexivity | reflexivity | now left]. }
  rewrite E. split; [reflexivity|]. split.
  - intros pre marker post Hm ->. f_equal.
    destruct (marker_bracketed Hm) as (body & Eb & _).
    rewrite zwsp_after_app by (right; rewrite Eb; now eexists).
    now rewrite zwsp_after_marker.
  - intros Hat. f_equal. rewrite <- (app_nil_r text) at 1.
    rewrite zwsp_after_skip by exact Hat. now rewrite app_nil_r.
Qed.

(** X13.  Whatever is resolved, a content without [<] passes the first
    pass of [clean_content] untouched, so that only the broadcast tokens
    are defused; a content with neither [<] nor [@] is returned as it
    is. *)
Theorem plain_text_is_kept (m : Msg) (text : str) :
  content m = Some text ->
  ~ In Marker.lt text ->
  clean_content_function m = Ok (zwsp_after_broadcast_at text) /\
  (~ In 64%N text -> clean_content_function m = Ok text).
Proof.
  intros Htext Hlt.
  assert (E : clean_content_function m
              = Ok (zwsp_after_broadcast_at text)).
  { unfold clean_content_function. rewrite Htext. cbn [re_sub bind].
    rewrite defuse_broadcasts_spec. do 2 f_equal.
    now apply substitute_mentions_plain. }
  rewrite E. split; [reflexivity|].
  intros Hat. f_equal. rewrite <- (app_nil_r text) at 1.
  rewrite zwsp_after_skip by exact Hat. now rewrite app_nil_r.
Qed.

(** X14.  When no member, channel or role is resolved (or roles are, but
    the message has no server), the pattern of the first pass is the empty
    alternation: it matches the empty string everywhere and replaces it by
    the empty string, so that [clean_content] computes the content with
    the broadcast tokens defused and nothing else changed. *)
Theorem nothing_resolved_nothing_replaced (m : Msg) (text : str) :
  content m = Some text ->
  mentions m = [] -> channel_mentions m = [] ->
  (role_mentions m = [] \/ server m = None) ->
  Dict.keys (mention_transformations m) = [] /\
  clean_content_function m = Ok (zwsp_after_broadcast_at text).
Proof.
  intros Htext Hm Hc Hr. split.
  - unfold mention_transformations. rewrite Hm, Hc.
    destruct Hr as [->| ->]; [now destruct (server m)|reflexivity].
  - unfold clean_content_function. rewrite Htext. cbn [re_sub bind].
    rewrite defuse_broadcasts_spec. do 2 f_equal.
    now apply substitute_nothing.
Qed.

(** A key of the dict is replaced by its value wherever it stands, when
    the ids are decimal. *)
Lemma mapped_marker_is_replaced (m : Msg) (pre k post : str) :
  decimal_ids m ->
  In k (Dict.keys (mention_transformations m)) ->
  substitute_mentions m (pre ++ k ++ post)
  = substitute_mentions m pre
    ++ Dict.get (mention_transformations m) k []
    ++ substitute_mentions m post.
Proof.
  intros Hids Hk. unfold substitute_mentions.
  set (T := mention_transformations m) in *.
  assert (Hb : forall a, In a (Dict.keys T) -> Marker.bracketed a)
    by (intros a; now apply transformation_keys_bracketed).
  replace (Re.alternation (Dict.keys T)) with (Dict.keys T)
    by (destruct (Dict.keys T); [destruct Hk | reflexivity]).
  destruct (Hb k Hk) as (body & Ek & _).
  rewrite (@sub_app (Dict.keys T) _ Hb) by (right; rewrite Ek; now eexists).
  f_equal.
  apply (@sub_match (Dict.keys T) (fun group0 => Dict.get T group0 []) k post).
  - rewrite Ek. discriminate.
  - apply (@first_alternative_unique (Dict.keys T) Hb); trivial.
    apply starts_with_app.
Qed.

(** X10.  With decimal ids, [clean_content] replaces in its first pass the
    marker of every resolved entity by the display form of an entity that
    is resolved under that id: [<#id>] by [#] and the channel's name,
    [<@id>] and [<@!id>] by [@] and the member's display name, and, when
    the message has a server, [<@&id>] by [@] and the role's name.  The
    text before and after the marker is rewritten on its own. *)
Theorem resolved_markers_are_displayed (m : Msg) (pre post : str) :
  decimal_ids m ->
  (forall c, In c (channel_mentions m) ->
     exists c',
       In c' (channel_mentions m) /\ Channel.id c' = Channel.id c /\
       substitute_mentions m (pre ++ Marker.channel (Channel.id c) ++ post)
       = substitute_mentions m pre ++ (lit "#" ++ Channel.name c')
         ++ substitute_mentions m post)
  /\
  (forall u, In u (mentions m) ->
     (exists u',
        In u' (mentions m) /\ Member.id u' = Member.id u /\
        substitute_mentions m (pre ++ Marker.user (Member.id u) ++ post)
        = substitute_mentions m pre ++ (lit "@" ++ Member.display_name u')
          ++ substitute_mentions m post) /\
     (exists u',
        In u' (mentions m) /\ Member.id u' = Member.id u /\
        substitute_mentions m (pre ++ Marker.nick (Member.id u) ++ post)
        = substitute_mentions m pre ++ (lit "@" ++ Member.display_name u')
          ++ substitute_mentions m post))
  /\
  (server m <> None ->
   forall r, In r (role_mentions m) ->
     exists r',
       In r' (role_mentions m) /\ Role.id r' = Role.id r /\
       substitute_mentions m (pre ++ Marker.role (Role.id r) ++ post)
       = substitute_mentions m pre ++ (lit "@" ++ Role.name r')
         ++ substitute_mentions m post).
Proof.
  intros Hids. pose proof Hids as (Hu & Hc & Hr).
  set (chkey := fun channel : Channel.t =>
                  lit "<#" ++ Channel.id channel ++ lit ">").
  set (chval := fun channel : Channel.t => lit "#" ++ Channel.name channel).
  set (ukey := fun member : Member.t =>
                 lit "<@" ++ Member.id member ++ lit ">").
  set (nkey := fun member : Member.t =>
                 lit "<@!" ++ Member.id member ++ lit ">").
  set (uval := fun member : Member.t =>
                 lit "@" ++ Member.display_name member).
  set (rkey := fun role : Role.t => lit "<@&" ++ Role.id role ++ lit ">").
  set (rval := fun role : Role.t => lit "@" ++ Role.name role).
  set (CH := Dict.comprehension chkey chval (channel_mentions m)).
  set (US := Dict.comprehension ukey uval (mentions m)).
  set (NI := Dict.comprehension nkey uval (mentions m)).
  set (RO := Dict.comprehension rkey rval (role_mentions m)).
  assert (ET : mention_transformations m
               = match server m with
                 | Some _ =>
                     Dict.update (Dict.update (Dict.update CH US) NI) RO
                 | None => Dict.update (Dict.update CH US) NI
                 end) by reflexivity.
  assert (KU : forall k, In k (Dict.keys US) ->
                         exists u, In u (mentions m) /\
                                   k = Marker.user (Member.id u))
    by (intros k Hk; now apply keys_comprehension in Hk).
  assert (KN : forall k, In k (Dict.keys NI) ->
                         exists u, In u (mentions m) /\
                                   k = Marker.nick (Member.id u))
    by (intros k Hk; now apply keys_comprehension in Hk).
  assert (KR : forall k, In k (Dict.keys RO) ->
                         exists r, In r (role_mentions m) /\
                                   k = Marker.role (Role.id r))
    by (intros k Hk; now apply keys_comprehension in Hk).
  (* what the last update, with the roles, leaves alone *)
  assert (Through : forall k v,
            ~ In k (Dict.keys RO) ->
            In k (Dict.keys (Dict.update (Dict.update CH US) NI)) ->
            Dict.get (Dict.update (Dict.update CH US) NI) k [] = v ->
            In k (Dict.keys (mention_transformations m)) /\
            Dict.get (mention_transformations m) k [] = v).
  { intros k v Hno Hin Hget. rewrite ET. destruct (server m); [|auto].
    split; [now apply keys_update_left|].
    now rewrite get_update_other. }
  split; [|split].
  - intros c Hin.
    destruct (@get_fold_in _ chkey chval (channel_mentions m) [] c [] Hin)
      as (c' & H1 & H2 & H3).
    apply (@marker_channel_inj (Channel.id c') (Channel.id c)) in H2.
    exists c'. split; [exact H1|]. split; [exact H2|].
    destruct (Through (Marker.channel (Channel.id c))
                (lit "#" ++ Channel.name c')) as [Kin Kget].
    + intros H. apply KR in H. destruct H as (r & _ & H). discriminate.
    + apply keys_update_left, keys_update_left.
      exact (@keys_comprehension_new _ chkey chval _ c Hin).
    + rewrite !get_update_other; [exact H3| |].
      * intros H. apply KU in H. destruct H as (u & _ & H). discriminate.
      * intros H. apply KN in H. destruct H as (u & _ & H). discriminate.
    + now rewrite (@mapped_marker_is_replaced m pre _ post Hids Kin), Kget.
  - intros u Hin. pose proof (Hu u Hin) as Hd.
    split.
    + destruct (@get_update_in CH US (Marker.user (Member.id u)) [])
        as (v & Hv & Hget);
        [exact (@keys_comprehension_new _ ukey uval _ u Hin)|].
      apply In_comprehension in Hv. destruct Hv as (u' & H1 & H2).
      apply pair_equal_spec in H2. destruct H2 as [H2 ->].
      apply (@marker_user_inj (Member.id u) (Member.id u')) in H2.
      exists u'. split; [exact H1|]. split; [now symmetry|].
      destruct (Through (Marker.user (Member.id u))
                  (lit "@" ++ Member.display_name u')) as [Kin Kget].
      * intros H. apply KR in H. destruct H as (r & _ & H).
        destruct (@marker_user_not_other (Member.id u) (Role.id r) Hd)
          as [_ N]. now apply N.
      * apply keys_update_left, keys_update_right.
        exact (@keys_comprehension_new _ ukey uval _ u Hin).
      * rewrite get_update_other; [exact Hget|].
        intros H. apply KN in H. destruct H as (w & _ & H).
        destruct (@marker_user_not_other (Member.id u) (Member.id w) Hd)
          as [N _]. now apply N.
      * now rewrite (@mapped_marker_is_replaced m pre _ post Hids Kin), Kget.
    + destruct (@get_update_in (Dict.update CH US) NI
                  (Marker.nick (Member.id u)) [])
        as (v & Hv & Hget);
        [exact (@keys_comprehension_new _ nkey uval _ u Hin)|].
      apply In_comprehension in Hv. destruct Hv as (u' & H1 & H2).
      apply pair_equal_spec in H2. destruct H2 as [H2 ->].
      apply (@marker_nick_inj (Member.id u) (Member.id u')) in H2.
      exists u'. split; [exact H1|]. split; [now symmetry|].
      destruct (Through (Marker.nick (Member.id u))
                  (lit "@" ++ Member.display_name u')) as [Kin Kget].
      * intros H. apply KR in H. destruct H as (r & _ & H). discriminate.
      * apply keys_update_right.
        exact (@keys_comprehension_new _ nkey uval _ u Hin).
      * exact Hget.
      * now rewrite (@mapped_marker_is_replaced m pre _ post Hids Kin), Kget.
  - intros Hs r Hin.
    destruct (server m) as [srv|] eqn:Es; [|now elim Hs].
    destruct (@get_update_in (Dict.update (Dict.update CH US) NI) RO
                (Marker.role (Role.id r)) [])
      as (v & Hv & Hget);
      [exact (@keys_comprehension_new _ rkey rval _ r Hin)|].
    apply In_comprehension in Hv. destruct Hv as (r' & H1 & H2).
    apply pair_equal_spec in H2. destruct H2 as [H2 ->].
    apply (@marker_role_inj (Role.id r) (Role.id r')) in H2.
    exists r'. split; [exact H1|]. split; [now symmetry|].
    assert (Kin : In (Marker.role (Role.id r))
                    (Dict.keys (mention_transformations m))).
    { rewrite ET. apply keys_update_right.
      exact (@keys_comprehension_new _ rkey rval _ r Hin). }
    rewrite (@mapped_marker_is_replaced m pre _ post Hids Kin), ET.
    now rewrite Hget.
Qed.

(** ** Both forms of a user marker *)





End CleanContentAgain.

(** * More about the two passes and the extraction *)

Section SecondPassAgain.

(** A text in which no broadcast token occurs is left as it is. *)
Lemma zwsp_after_without_tokens (s : str) :
  occurs (lit "@everyone") s = false ->
  occurs (lit "@here") s = false ->
  zwsp_after_broadcast_at s = s.
Proof.
  induction s as [|c s IH]; [reflexivity|].
  rewrite !occurs_cons. intros H1 H2.
  cbn [zwsp_after_broadcast_at]. unfold broadcast_at.
  destruct (starts_with (lit "@everyone") (c :: s)); [discriminate|].
  destruct (starts_with (lit "@here") (c :: s)); [discriminate|].
  now rewrite IH.
Qed.

Lemma zwsp_after_filter (s : str) :
  filter (fun c => negb (N.eqb c zwsp)) (zwsp_after_broadcast_at s)
  = filter (fun c => negb (N.eqb c zwsp)) s.
Proof.
  induction s as [|c s IH]; [reflexivity|].
  cbn [zwsp_after_broadcast_at].
  destruct (broadcast_at (c :: s)); cbn [filter]; rewrite ?N.eqb_refl;
    cbn [negb]; now rewrite IH.
Qed.

Lemma zwsp_after_length (s : str) :
  List.length s <= List.length (zwsp_after_broadcast_at s).
Proof.
  induction s as [|c s IH]; [reflexivity|].
  cbn [zwsp_after_broadcast_at].
  destruct (broadcast_at (c :: s)); simpl; lia.
Qed.

(** X11.  The second pass of [clean_content] only inserts U+200B: taking
    the U+200B out of its output gives what taking them out of its input
    gives (the input itself, when it has none), nothing is removed, and a
    second run of the pass over its own output changes nothing. *)
Theorem second_pass_only_inserts_zwsp (s : str) :
  filter (fun c => negb (N.eqb c zwsp)) (defuse_broadcasts s)
  = filter (fun c => negb (N.eqb c zwsp)) s /\
  List.length s <= List.length (defuse_broadcasts s) /\
  defuse_broadcasts (defuse_broadcasts s) = defuse_broadcasts s.
Proof.
  rewrite !defuse_broadcasts_spec.
  split; [apply zwsp_after_filter|]. split; [apply zwsp_after_length|].
  apply zwsp_after_without_tokens; apply zwsp_after_no_broadcast; auto.
Qed.

End SecondPassAgain.

Section ExtractionAgain.

Lemma occurs_inside (p pre rest : str) : occurs p (pre ++ p ++ rest) = true.
Proof.
  induction pre as [|c pre IH].
  - cbn [app]. destruct p as [|a p]; [now destruct rest|].
    cbn [app]. rewrite occurs_cons.
    change (a :: p ++ rest) with ((a :: p) ++ rest).
    now rewrite starts_with_app.
  - cbn [app]. rewrite occurs_cons, IH.
    now destruct (starts_with p (c :: pre ++ p ++ rest)).
Qed.

Lemma digits_group_shape (s g r : str) :
  Re.digits_group (lit ">") s = Some (g, r) ->
  Marker.is_id g /\ s = g ++ lit ">" ++ r.
Proof.
  unfold Re.digits_group. destruct (span_digits s) as [d t] eqn:E.
  apply span_digits_spec in E. destruct E as (-> & Hd & _).
  destruct d as [|c d]; [discriminate|].
  destruct (starts_with (lit ">") t) as [rest|] eqn:F; [|discriminate].
  apply starts_with_spec in F. subst t. intros [= <- <-].
  split; [split; [discriminate|exact Hd]|reflexivity].
Qed.

(** What a match of each pattern looks like. *)

Lemma user_pattern_shape (t g r : str) :
  Re.user_pattern t = Some (g, r) ->
  Marker.is_id g /\ (t = Marker.user g ++ r \/ t = Marker.nick g ++ r).
Proof.
  rewrite user_pattern_scan.
  destruct (starts_with (lit "<@") t) as [u|] eqn:E; [|discriminate].
  apply starts_with_spec in E. subst t. intros H.
  apply digits_group_shape in H. destruct H as [Hg H].
  split; [exact Hg|].
  destruct u as [|c u]; [destruct g; discriminate|].
  cbn [Re.optional] in H. destruct (N.eqb_spec c 33%N) as [->|_].
  - right. subst u. unfold Marker.nick. now rewrite <- !app_assoc.
  - left. rewrite H. unfold Marker.user. now rewrite <- !app_assoc.
Qed.

Lemma channel_pattern_shape (t g r : str) :
  Re.channel_pattern t = Some (g, r) ->
  Marker.is_id g /\ t = Marker.channel g ++ r.
Proof.
  rewrite channel_pattern_scan.
  destruct (starts_with (lit "<#") t) as [u|] eqn:E; [|discriminate].
  apply starts_with_spec in E. subst t. intros H.
  apply digits_group_shape in H. destruct H as [Hg ->].
  split; [exact Hg|]. unfold Marker.channel. now rewrite <- !app_assoc.
Qed.

Lemma role_pattern_shape (t g r : str) :
  Re.role_pattern t = Some (g, r) ->
  Marker.is_id g /\ t = Marker.role g ++ r.
Proof.
  rewrite role_pattern_scan.
  destruct (starts_with (lit "<@&") t) as [u|] eqn:E; [|discriminate].
  apply starts_with_spec in E. subst t. intros H.
  apply digits_group_shape in H. destruct H as [Hg ->].
  split; [exact Hg|]. unfold Marker.role. now rewrite <- !app_assoc.
Qed.

(** Whatever [findall] returns was matched somewhere in the text. *)
Lemma findall_In (p : Re.matcher) (s g : str) :
  (forall t g r, p t = Some (g, r) -> exists w, w <> [] /\ t = w ++ r) ->
  In g (Re.findall p s) ->
  exists pre t r, s = pre ++ t /\ p t = Some (g, r).
Proof.
  intros Hp.
  assert (Hc : forall t g r, p t = Some (g, r) ->
                             List.length r < List.length t).
  { intros t g' r H. destruct (Hp _ _ _ H) as (w & Hw & ->).
    rewrite length_app. destruct w; [now elim Hw|simpl; lia]. }
  remember (List.length s) as n eqn:Hn. revert s Hn.
  induction n as [n IH] using lt_wf_ind. intros s Hn.
  destruct s as [|c s]; [intros []|].
  rewrite (@findall_cons p Hc).
  destruct (p (c :: s)) as [[g0 r]|] eqn:E.
  - intros [<-|H].
    + exists [], (c :: s), r. auto.
    + destruct (Hp _ _ _ E) as (w & _ & Ew).
      destruct (IH (List.length r)) with (s := r)
        as (pre & t & r' & -> & Ht); trivial.
      * apply Hc in E. lia.
      * exists (w ++ pre), t, r'. rewrite Ew. now rewrite <- app_assoc.
  - intros H.
    destruct (IH (List.length s)) with (s := s)
      as (pre & t & r' & -> & Ht); trivial.
    + simpl in Hn. lia.
    + exists (c :: pre), t, r'. auto.
Qed.

End ExtractionAgain.

Section RawListsAgain.

Variables datetime json : Type.
Variable strptime : str -> result datetime.

Local Abbreviation Msg := (Message.t datetime json).

(** X12.  Every id in [raw_mentions], [raw_channel_mentions] and
    [raw_role_mentions] is a non-empty run of decimal digits whose marker
    ([<@id>] or [<@!id>], [<#id>], [<@&id>]) is written in the content;
    a content without [<] gives three empty lists. *)
Theorem raw_ids_are_decimal_and_written (m : Msg) (text : str) :
  hydrated strptime m ->
  content m = Some text ->
  exists users channels roles,
    value (raw_mentions m) = Ok users /\
    value (raw_channel_mentions m) = Ok channels /\
    value (raw_role_mentions m) = Ok roles /\
    (forall d, In d users ->
       Marker.is_id d /\
       (occurs (Marker.user d) text = true \/
        occurs (Marker.nick d) text = true)) /\
    (forall d, In d channels ->
       Marker.is_id d /\ occurs (Marker.channel d) text = true) /\
    (forall d, In d roles ->
       Marker.is_id d /\ occurs (Marker.role d) text = true) /\
    (~ In Marker.lt text -> users = [] /\ channels = [] /\ roles = []).
Proof.
  intros H Htext.
  destruct (hydrated_raw_values H) as (-> & -> & ->). rewrite Htext.
  cbn [re_findall].
  exists (Re.findall Re.user_pattern text),
         (Re.findall Re.channel_pattern text),
         (Re.findall Re.role_pattern text).
  repeat (split; [reflexivity|]).
  split; [|split; [|split]].
  - intros d Hd. apply findall_In in Hd.
    + destruct Hd as (pre & t & r & -> & Ht).
      apply user_pattern_shape in Ht. destruct Ht as [Hid [-> | ->]].
      * split; [exact Hid|]. left. apply occurs_inside.
      * split; [exact Hid|]. right. apply occurs_inside.
    + intros t g r Ht. apply user_pattern_shape in Ht.
      destruct Ht as [_ [-> | ->]]; eexists; (split; [|reflexivity]);
        discriminate.
  - intros d Hd. apply findall_In in Hd.
    + destruct Hd as (pre & t & r & -> & Ht).
      apply channel_pattern_shape in Ht. destruct Ht as [Hid ->].
      split; [exact Hid|]. apply occurs_inside.
    + intros t g r Ht. apply channel_pattern_shape in Ht.
      destruct Ht as [_ ->]. eexists. split; [|reflexivity]. discriminate.
  - intros d Hd. apply findall_In in Hd.
    + destruct Hd as (pre & t & r & -> & Ht).
      apply role_pattern_shape in Ht. destruct Ht as [Hid ->].
      split; [exact Hid|]. apply occurs_inside.
    + intros t g r Ht. apply role_pattern_shape in Ht.
      destruct Ht as [_ ->]. eexists. split; [|reflexivity]. discriminate.
  - intros Hlt. rewrite <- (app_nil_r text).
    rewrite !findall_skip;
      eauto using user_pattern_consumes, channel_pattern_consumes,
        role_pattern_consumes, user_pattern_head, channel_pattern_head,
        role_pattern_head.
Qed.

End RawListsAgain.

(** * The further properties on the example server *)

(** X1 where the author is on the roster: the author of the message is
    the member. *)
Lemma author_is_upgraded_in_server_channels_only_witness :
  author (built (in_general "hi" [])) = AuthorMember alice.
Proof.
  destruct (@author_is_upgraded_in_server_channels_only str unit strptime
              (in_general "hi" []) (blank str unit)
              (built (in_general "hi" []))) as [A _].
  - vm_compute. reflexivity.
  - exact (A general guild alice eq_refl eq_refl).
Defined.

(** X2 at a payload that mentions a stranger, then [alice] twice, and a
    role that does not exist before [mods]. *)
Lemma payload_mentions_are_resolved_in_order_witness :
  let m := built (payload (Some (TextChannel general guild))
                    (Some (lit "1")) (Some (lit "hi"))
                    [user "999"; user "123"; user "123"]
                    [lit "8"; lit "7"]) in
  mentions m = [alice; alice] /\ role_mentions m = [mods].
Proof.
  intros m.
  destruct (@payload_mentions_are_resolved_in_order str unit strptime
              (payload (Some (TextChannel general guild))
                 (Some (lit "1")) (Some (lit "hi"))
                 [user "999"; user "123"; user "123"]
                 [lit "8"; lit "7"])
              (blank str unit) m general guild)
    as (A & B & _).
  - reflexivity.
  - vm_compute. reflexivity.
  - rewrite A, B. vm_compute. split; reflexivity.
Defined.

(** X3 at a text with three channel markers, the second of an unknown
    channel. *)
Lemma channel_mentions_follow_the_text_witness :
  channel_mentions (built (in_general "<#2> <#9> <#1>" []))
  = [random; general].
Proof.
  destruct (@channel_mentions_follow_the_text str unit strptime
              (in_general "<#2> <#9> <#1>" []) (blank str unit)
              (built (in_general "<#2> <#9> <#1>" []))
              general guild (lit "<#2> <#9> <#1>"))
    as [A _].
  - reflexivity.
  - reflexivity.
  - reflexivity.
  - vm_compute. reflexivity.
  - rewrite A. vm_compute. reflexivity.
Defined.

(** X4 at an [Object] that says it is not private: without mentions the
    hydration goes through and resolves nothing. *)
Lemma public_object_cannot_resolve_witness :
  exists m,
    _update strptime
      (payload (Some (Object (lit "5") (Some false))) None
         (Some (lit "hi <#1>")) [] [lit "7"])
      (blank str unit)
    = Ok m /\
    channel m = Some (Object (lit "5") (Some false)) /\
    server m = None /\
    mentions m = [] /\ channel_mentions m = [] /\ role_mentions m = [].
Proof.
  destruct (@public_object_cannot_resolve str unit strptime
              (payload (Some (Object (lit "5") (Some false))) None
                 (Some (lit "hi <#1>")) [] [lit "7"])
              (blank str unit) (lit "5") None posted_at
              eq_refl eq_refl eq_refl) as [A _].
  exact (A eq_refl).
Defined.

(** X5 at a new message in [#general] whose payload has no content. *)
Lemma server_channel_needs_content_witness :
  _update strptime
    (payload (Some (TextChannel general guild)) (Some (lit "1")) None [] [])
    (blank str unit)
  = Raise TypeError.
Proof.
  destruct (@server_channel_needs_content str unit strptime
              (payload (Some (TextChannel general guild)) (Some (lit "1"))
                 None [] [])
              (blank str unit) general guild None posted_at
              eq_refl eq_refl eq_refl) as [A _].
  exact (A eq_refl eq_refl).
Defined.

(** X6 at an [Object] that says it is not private and a payload that
    mentions a user. *)
Lemma hydration_raises_exactly_witness :
  _update strptime
    (payload (Some (Object (lit "5") (Some false))) None
       (Some (lit "hi")) [user "123"] [])
    (blank str unit)
  = Raise AttributeError.
Proof.
  apply (@hydration_raises_exactly str unit strptime
           (payload (Some (Object (lit "5") (Some false))) None
              (Some (lit "hi")) [user "123"] [])
           (blank str unit) AttributeError).
  right. right. exists None, posted_at.
  split; [reflexivity|]. split; [reflexivity|].
  left. split; [reflexivity|].
  split; [now exists (lit "5")|discriminate].
Defined.

(** X7 at an edit of a message and the creation of a message from the
    same payload. *)
Lemma hydration_replaces_the_message_witness :
  _update strptime (in_general "new <#2>" [])
    (built (in_general "old <#1>" [user "123"]))
  = _update strptime (in_general "new <#2>" []) (blank str unit).
Proof.
  destruct (@hydration_replaces_the_message str unit strptime
              (in_general "new <#2>" [])
              (built (in_general "old <#1>" [user "123"]))
              (blank str unit)) as [A _].
  apply A. vm_compute. reflexivity.
Defined.

(** X8 at a message whose [clean_content] was read before an edit. *)
Lemma clean_content_is_current_witness :
  let m := built (in_general "hi <@123>" [user "123"]) in
  let m' := match clean_content m with
            | Ok (_, m') => m'
            | Raise _ => m
            end in
  let edited := updated (in_general "bye <#1>" []) m' in
  _clean_content m' = Some (lit "hi @Alice") /\
  value (clean_content edited) = Ok (lit "bye #general").
Proof.
  intros m m' edited. split; [vm_compute; reflexivity|].
  rewrite (@clean_content_is_current str unit strptime edited).
  - vm_compute. reflexivity.
  - apply hydrated_update
      with (data := in_general "bye <#1>" []) (self := m').
    vm_compute. reflexivity.
Defined.

(** X9 at a private message with a user marker and a broadcast token. *)
Lemma private_clean_content_keeps_markers_witness :
  value (clean_content (built (in_private "hi <@123> @here" [user "123"])))
  = Ok (lit "hi <@123> @" ++ zwsp :: lit "here").
Proof.
  destruct (@private_clean_content_keeps_markers str unit strptime
              (in_private "hi <@123> @here" [user "123"])
              (blank str unit)
              (built (in_private "hi <@123> @here" [user "123"]))
              (lit "hi <@123> @here")) as [A _].
  - vm_compute. reflexivity.
  - reflexivity.
  - reflexivity.
  - rewrite A. vm_compute. reflexivity.
Defined.

(** X13 at an ordinary sentence posted where a member is mentioned. *)
Lemma plain_text_is_kept_witness :
  clean_content_function (built (in_general "see you at 5" [user "123"]))
  = Ok (lit "see you at 5").
Proof.
  destruct (@plain_text_is_kept str unit
              (built (in_general "see you at 5" [user "123"]))
              (lit "see you at 5")) as [_ A].
  - reflexivity.
  - vm_compute. intros H.
    repeat (destruct H as [H|H]; [discriminate|]). exact H.
  - apply A. vm_compute. intros H.
    repeat (destruct H as [H|H]; [discriminate|]). exact H.
Defined.

(** X14 at a text full of markup posted where the roster is empty. *)
Lemma nothing_resolved_nothing_replaced_witness :
  clean_content_function
    (built (in_empty_guild "hi <@123> <#1> @here" [user "123"]))
  = Ok (lit "hi <@123> <#1> @" ++ zwsp :: lit "here").
Proof.
  destruct (@nothing_resolved_nothing_replaced str unit
              (built (in_empty_guild "hi <@123> <#1> @here" [user "123"]))
              (lit "hi <@123> <#1> @here")) as [_ A].
  - reflexivity.
  - reflexivity.
  - reflexivity.
  - now left.
  - rewrite A. vm_compute. reflexivity.
Defined.

(** X10 at a message that resolves [alice], [#general] and [mods]. *)
Lemma resolved_markers_are_displayed_witness :
  let m := built (payload (Some (TextChannel general guild))
                    (Some (lit "1")) (Some (lit "<#1>"))
                    [user "123"] [lit "7"]) in
  substitute_mentions m (lit "in " ++ Marker.channel (lit "1") ++ lit "!")
  = lit "in #general!" /\
  substitute_mentions m (lit "to " ++ Marker.nick (lit "123") ++ lit "!")
  = lit "to @Alice!" /\
  substitute_mentions m (lit "ask " ++ Marker.role (lit "7") ++ lit "!")
  = lit "ask @mods!".
Proof.
  intros m.
  assert (D : decimal_ids m).
  { repeat split; intros x H; vm_compute in H;
      repeat (destruct H as [H|H]; [subst x; reflexivity|]); destruct H. }
  split; [|split].
  - destruct (@resolved_markers_are_displayed str unit m
                (lit "in ") (lit "!") D) as (A & _ & _).
    destruct (A general) as (c & Hc & _ & E).
    + vm_compute. now left.
    + vm_compute in Hc. destruct Hc as [<-|[]].
      refine (eq_trans E _). vm_compute. reflexivity.
  - destruct (@resolved_markers_are_displayed str unit m
                (lit "to ") (lit "!") D) as (_ & A & _).
    destruct (A alice) as (_ & u & Hu & _ & E).
    + vm_compute. now left.
    + vm_compute in Hu. destruct Hu as [<-|[]].
      refine (eq_trans E _). vm_compute. reflexivity.
  - destruct (@resolved_markers_are_displayed str unit m
                (lit "ask ") (lit "!") D) as (_ & _ & A).
    destruct (A ltac:(discriminate) mods) as (r & Hr & _ & E).
    + vm_compute. now left.
    + vm_compute in Hr. destruct Hr as [<-|[]].
      refine (eq_trans E _). vm_compute. reflexivity.
Defined.

(** X12 at a text with one marker of each kind. *)
Lemma raw_ids_are_decimal_and_written_witness :
  let m := built (in_general "a <@123> <#1> <@&7>" []) in
  value (raw_mentions m) = Ok [lit "123"] /\
  value (raw_channel_mentions m) = Ok [lit "1"] /\
  value (raw_role_mentions m) = Ok [lit "7"] /\
  Marker.is_id (lit "123") /\
  occurs (Marker.channel (lit "1")) (lit "a <@123> <#1> <@&7>") = true.
Proof.
  intros m.
  destruct (@raw_ids_are_decimal_and_written str unit strptime m
              (lit "a <@123> <#1> <@&7>"))
    as (users & channels & roles & U & C & R & HU & HC & _).
  - apply hydrated_update
      with (data := in_general "a <@123> <#1> <@&7>" [])
           (self := blank str unit).
    vm_compute. reflexivity.
  - reflexivity.
  - assert (EU : users = [lit "123"]).
    { vm_compute in U. now inversion U. }
    assert (EC : channels = [lit "1"]).
    { vm_compute in C. now inversion C. }
    subst users channels.
    split; [exact U|]. split; [exact C|].
    split; [vm_compute; reflexivity|].
    split.
    + apply (HU (lit "123")). now left.
    + apply (HC (lit "1")). now left.
Defined.


